(** * Land-cover tuning script: a shallow embedding and its properties

    The script [Secondary_Research/base_model_tuning_and_testing.js] is a
    configuration program over the Earth Engine client library.  Rasters
    are embedded as functions from pixel locations to optional values
    ([None] is a masked pixel), collections as lists, numbers as
    rationals.  Floating-point rounding is not modelled. *)

From Stdlib Require Import ZArith QArith Qround List String Bool Lia.
From Stdlib Require Import Permutation Lqa Qabs.
Import ListNotations.

Local Open Scope Z_scope.

(** ** Engine primitives on numbers *)

Module Engine.

(** [ee.Number.eq]: 1 when the operands are equal, 0 otherwise. *)
Definition Number_eq (a b : Z) : Z := if a =? b then 1 else 0.

(** [ee.Algorithms.If]: a numeric condition is true iff it is non-zero. *)
Definition Algorithms_If {A : Type} (cond : Z) (trueCase falseCase : A) : A :=
  if cond =? 0 then falseCase else trueCase.

(** [ee.Filter.lt], [ee.Filter.lte], [ee.Filter.gt] on a numeric property. *)
Definition Filter_lt (x bound : Z) : bool := x <? bound.

Definition Q_leb (x y : Q) : bool :=
  (Qnum x * QDen y <=? Qnum y * QDen x)%Z.

Definition Q_ltb (x y : Q) : bool :=
  (Qnum x * QDen y <? Qnum y * QDen x)%Z.

Definition Filter_lte (x bound : Q) : bool := Q_leb x bound.

Definition Filter_gt (x bound : Q) : bool := Q_ltb bound x.

(** A deferred [ee.Number.parse] node; its argument is the property value
    the script hands to it. *)
Inductive ee_number : Type :=
| Number_parse (arg : option string).

End Engine.

(** ** Section 2 of the script: labelled points *)

Module Labels.
Import Engine.

(** One row of the label table: the two coordinate columns, which may be
    null, and the eight category columns. *)
Record LabelRow : Type := mkRow {
  lon : option string;
  lat : option string;
  Forest : Z;
  Tree_Based_AG : Z;
  Wet_Paddy : Z;
  Grassland : Z;
  Urban : Z;
  Shifting_Cultivation : Z;
  Non_Tree_based_agriculture : Z;
  Other : Z
}.

(** A row after the [map] of lines 24-41: point geometry and
    [target_class] attached. *)
Record Point : Type := mkPoint {
  feature : LabelRow;
  geometry : ee_number * ee_number;
  target_class : Z
}.

(** [ee.Filter.notNull(['lon', 'lat'])]. *)
Definition notNull_lon_lat (r : LabelRow) : bool :=
  match lon r, lat r with
  | Some _, Some _ => true
  | _, _ => false
  end.

(** The nested [ee.Algorithms.If] of lines 29-37. *)
Definition classNumber (r : LabelRow) : Z :=
  Algorithms_If (Number_eq (Forest r) 1) 0
    (Algorithms_If (Number_eq (Tree_Based_AG r) 1) 1
      (Algorithms_If (Number_eq (Wet_Paddy r) 1) 2
        (Algorithms_If (Number_eq (Grassland r) 1) 3
          (Algorithms_If (Number_eq (Urban r) 1) 4
            (Algorithms_If (Number_eq (Shifting_Cultivation r) 1) 5
              (Algorithms_If (Number_eq (Non_Tree_based_agriculture r) 1) 6
                (Algorithms_If (Number_eq (Other r) 1) 7 99))))))).

(** The function mapped over the filtered table. *)
Definition label_feature (r : LabelRow) : Point :=
  let lon := Number_parse (lon r) in
  let lat := Number_parse (lat r) in
  {| feature := r; geometry := (lon, lat); target_class := classNumber r |}.

Definition points (table : list LabelRow) : list Point :=
  map label_feature (filter notNull_lon_lat table).

Definition finalPoints (table : list LabelRow) : list Point :=
  filter (fun p => Filter_lt (target_class p) 99) (points table).

(** Section 4 of the script.  [randomColumn('random')] attaches to the
    i-th feature the i-th value of the generator's sequence. *)
Record SplitPoint : Type := mkSplit {
  point : Point;
  random : Q
}.

Fixpoint randomColumn_from (draw : nat -> Q) (i : nat) (l : list Point)
  : list SplitPoint :=
  match l with
  | [] => []
  | p :: l' => {| point := p; random := draw i |}
               :: randomColumn_from draw (S i) l'
  end.

Definition randomColumn (draw : nat -> Q) (l : list Point) : list SplitPoint :=
  randomColumn_from draw 0 l.

(** [finalPoints] after the reassignment of line 104. *)
Definition finalPoints_random (draw : nat -> Q) (table : list LabelRow)
  : list SplitPoint :=
  randomColumn draw (finalPoints table).

Definition trainingSet (draw : nat -> Q) (table : list LabelRow)
  : list SplitPoint :=
  filter (fun p => Filter_lte (random p) 0.8) (finalPoints_random draw table).

Definition testingSet (draw : nat -> Q) (table : list LabelRow)
  : list SplitPoint :=
  filter (fun p => Filter_gt (random p) 0.8) (finalPoints_random draw table).

(** The priority order as the specification lists it, and the position of
    the first flag equal to 1 in a list of flags. *)
Definition spec_priority_order (r : LabelRow) : list Z :=
  [Forest r; Tree_Based_AG r; Wet_Paddy r; Grassland r; Urban r;
   Shifting_Cultivation r; Non_Tree_based_agriculture r; Other r].

Fixpoint first_flag_index (flags : list Z) : option nat :=
  match flags with
  | [] => None
  | f :: rest => if f =? 1 then Some O
                 else option_map S (first_flag_index rest)
  end.

End Labels.

(** ** Section 3 of the script: the predictor image *)

Module Imagery.

Local Open Scope string_scope.

(** A pixel location, a raster (one band; [None] is a masked pixel) and a
    list of named bands.  Band masks are per band, as in the engine. *)
Definition Loc : Type := (Z * Z)%type.
Definition Raster : Type := Loc -> option Q.
Definition Bands : Type := list (string * Raster).

(** Acquisition time, to the day. *)
Record Date : Type := mkDate { dyear : Z; dmonth : Z; dday : Z }.

(** A scene of the catalogue with the properties the script reads. *)
Record Image : Type := mkImage {
  bands : Bands;
  WRS_PATH : Z;
  WRS_ROW : Z;
  time_start : Date;
  CLOUD_COVER : Q
}.

Definition with_bands (image : Image) (bs : Bands) : Image :=
  {| bands := bs; WRS_PATH := WRS_PATH image; WRS_ROW := WRS_ROW image;
     time_start := time_start image; CLOUD_COVER := CLOUD_COVER image |}.

Fixpoint lookup_band (name : string) (bs : Bands) : option Raster :=
  match bs with
  | [] => None
  | (n, r) :: rest => if String.eqb n name then Some r
                      else lookup_band name rest
  end.

(** The value of a band at a pixel; an absent band has no value anywhere. *)
Definition band_value (bs : Bands) (name : string) (p : Loc) : option Q :=
  match lookup_band name bs with
  | Some r => r p
  | None => None
  end.

(** [image.select(name)] and [image.select('SR_B.*')]: the regular
    expression must match the whole band name, so ['SR_B.*'] selects the
    bands whose name starts with [SR_B]. *)
Definition select (name : string) (bs : Bands) : Bands :=
  filter (fun b => String.eqb (fst b) name) bs.

Definition select_starting (pre : string) (bs : Bands) : Bands :=
  filter (fun b => String.prefix pre (fst b)) bs.

(** [select(currentNames, newNames)]: the listed bands, in the listed
    order, under their new names. *)
Definition select_rename (names : list (string * string)) (bs : Bands) : Bands :=
  map (fun cn => (snd cn, band_value bs (fst cn))) names.

Definition rename (name : string) (bs : Bands) : Bands :=
  map (fun b => (name, snd b)) bs.

(** Pixel-wise arithmetic with a constant keeps each band's mask. *)
Definition pixelwise (f : Q -> Q) (bs : Bands) : Bands :=
  map (fun b => (fst b, fun p => option_map f (snd b p))) bs.

Definition multiply (c : Q) : Bands -> Bands := pixelwise (fun v => v * c)%Q.
Definition add (c : Q) : Bands -> Bands := pixelwise (fun v => v + c)%Q.

(** [bitwiseAnd] on integer-valued bands ([QA_PIXEL] is an unsigned
    16-bit band, embedded in the rationals). *)
Definition bitwiseAnd (c : Z) : Bands -> Bands :=
  pixelwise (fun v => inject_Z (Z.land (Qfloor v) c)).

Definition eq (c : Q) : Bands -> Bands :=
  pixelwise (fun v => if Qeq_bool v c then 1 else 0)%Q.

(** [updateMask]: every band of the image stays valid only where it was
    valid and the (single-band) mask is valid and non-zero. *)
Definition mask_raster (mask : Bands) : Raster :=
  match mask with
  | [] => fun _ => None
  | (_, m) :: _ => m
  end.

Definition updateMask (image : Image) (mask : Bands) : Image :=
  with_bands image
    (map (fun b => (fst b,
                    fun p => match snd b p, mask_raster mask p with
                             | Some v, Some m =>
                                 if Qeq_bool m 0 then None else Some v
                             | _, _ => None
                             end)) (bands image)).

(** [addBands(src, null, true)]: a band of [src] replaces the band of the
    same name, data and mask; a new name is appended. *)
Fixpoint overwrite_band (name : string) (r : Raster) (bs : Bands) : Bands :=
  match bs with
  | [] => [(name, r)]
  | (n, r') :: rest => if String.eqb n name then (n, r) :: rest
                       else (n, r') :: overwrite_band name r rest
  end.

Definition addBands_overwrite (image : Image) (src : Bands) : Image :=
  with_bands image
    (fold_left (fun acc b => overwrite_band (fst b) (snd b) acc)
               src (bands image)).

(** [addBands(src)]: bands are appended; a name already in use gets a
    numeric suffix. *)
Definition has_band (name : string) (bs : Bands) : bool :=
  existsb (fun b => String.eqb (fst b) name) bs.

Definition append_band (bs : Bands) (b : string * Raster) : Bands :=
  if has_band (fst b) bs then (bs ++ [(String.append (fst b) "_1", snd b)])%list
  else (bs ++ [b])%list.

Definition addBands (dst src : Bands) : Bands :=
  fold_left append_band src dst.

(** [copyProperties(image, ['CLOUD_COVER'])]. *)
Definition copyProperties_CLOUD_COVER (dst source : Image) : Image :=
  {| bands := bands dst; WRS_PATH := WRS_PATH dst; WRS_ROW := WRS_ROW dst;
     time_start := time_start dst; CLOUD_COVER := CLOUD_COVER source |}.

(** The masking rule in the specification's words: a pixel is masked
    if any of bits 1, 3, 4 of its quality value is set. *)
Definition spec_masked (qa : Z) : bool :=
  Z.testbit qa 1 || Z.testbit qa 3 || Z.testbit qa 4.

(** Lines 50-58. *)
Definition cloudMask : Z :=
  Z.lor (Z.lor (Z.shiftl 1 1) (Z.shiftl 1 3)) (Z.shiftl 1 4).

(** The mask is applied to [image] first; [opticalBands] is computed from
    [image] itself and put over the masked image afterwards. *)
Definition maskL8sr (image : Image) : Image :=
  let qa := select "QA_PIXEL" (bands image) in
  let mask := eq 0 (bitwiseAnd cloudMask qa) in
  let opticalBands :=
    add (-0.2) (multiply 0.0000275 (select_starting "SR_B" (bands image))) in
  copyProperties_CLOUD_COVER
    (addBands_overwrite (updateMask image mask) opticalBands)
    image.

(** [toFloat]: the nearest single-precision number, ties to even, that
    is 24 significant bits with a least exponent of -149.  Overflow is
    left out: the script converts 100 - CLOUD_COVER. *)
Definition round_half_even (q : Q) : Z :=
  let f := Qfloor q in
  match Qcompare (q - inject_Z f) (1 # 2) with
  | Lt => f
  | Gt => (f + 1)%Z
  | Eq => if Z.even f then f else (f + 1)%Z
  end.

Definition float32_exponent (q : Q) : Z :=
  let a := Qabs q in
  let k := (Z.log2 (Qnum a) - Z.log2 (Zpos (Qden a)))%Z in
  let l := if Engine.Q_leb (Qpower 2 k) a then k else (k - 1)%Z in
  Z.max (l - 23) (-149).

Definition toFloat (q : Q) : Q :=
  if Qeq_bool q 0 then 0%Q
  else let e := float32_exponent q in
       (inject_Z (round_half_even (q / Qpower 2 e)) * Qpower 2 e)%Q.

(** Lines 60-65. *)
Definition addQualityBand (image : Image) : Image :=
  let quality : Bands :=
    [("constant", fun _ : Loc => Some (toFloat (100 - CLOUD_COVER image))%Q)] in
  with_bands image (addBands (bands image) (rename "quality_score" quality)).

(** Lines 10-14 and 67-70. *)
Definition year : Z := 2018.
Definition month : Z := 12.

Definition pathRowList : list (Z * Z) :=
  [(133, 40); (133, 41); (134, 40); (134, 41); (134, 42);
   (135, 39); (135, 40); (135, 41); (135, 42);
   (136, 40); (136, 41); (136, 42); (137, 41)]%Z.

Definition pathRowFilters (image : Image) : bool :=
  existsb (fun pathRow => (WRS_PATH image =? fst pathRow)%Z
                          && (WRS_ROW image =? snd pathRow)%Z)
          pathRowList.

Definition Date_fromYMD (y m d : Z) : Date :=
  {| dyear := y; dmonth := m; dday := d |}.

Definition advance_1_month (d : Date) : Date :=
  if (dmonth d =? 12)%Z
  then {| dyear := dyear d + 1; dmonth := 1; dday := dday d |}
  else {| dyear := dyear d; dmonth := dmonth d + 1; dday := dday d |}.

Definition startDate : Date := Date_fromYMD year month 1.
Definition endDate : Date := advance_1_month startDate.

Definition Date_ltb (a b : Date) : bool :=
  (dyear a <? dyear b)%Z
  || ((dyear a =? dyear b)%Z
      && ((dmonth a <? dmonth b)%Z
          || ((dmonth a =? dmonth b)%Z && (dday a <? dday b)%Z))).

(** [filterDate(start, end)]: start inclusive, end exclusive. *)
Definition filterDate (s e : Date) (col : list Image) : list Image :=
  filter (fun image => negb (Date_ltb (time_start image) s)
                       && Date_ltb (time_start image) e) col.

(** Modelled from the spec: [qualityMosaic] is a primitive of the raster
    engine, outside the script.  Per pixel it takes all bands from one
    scene, the one with the highest quality score among the scenes whose
    pixel is unmasked there; a pixel of a scene is unmasked when none of
    the scene's bands is masked at it.  The first scene in collection
    order wins a tie; with no eligible scene the pixel is unset. *)
Definition valid_at (p : Loc) (b : string * Raster) : bool :=
  match snd b p with
  | Some _ => true
  | None => false
  end.

Definition unmasked_pixel (image : Image) (p : Loc) : bool :=
  forallb (valid_at p) (bands image).

Fixpoint best_pixel (quality : string) (col : list Image) (p : Loc)
  : option (Q * Image) :=
  match col with
  | [] => None
  | s :: rest =>
      let later := best_pixel quality rest p in
      if unmasked_pixel s p then
        match band_value (bands s) quality p with
        | Some q =>
            match later with
            | Some (q', s') => if Engine.Q_ltb q q' then later else Some (q, s)
            | None => Some (q, s)
            end
        | None => later
        end
      else later
  end.

Definition composite_band (quality : string) (col : list Image)
           (name : string) : Raster :=
  fun p => match best_pixel quality col p with
           | Some (_, s) => band_value (bands s) name p
           | None => None
           end.

Definition qualityMosaic (quality : string) (col : list Image) : Bands :=
  match col with
  | [] => []
  | first :: _ =>
      map (fun b => (fst b, composite_band quality col (fst b))) (bands first)
  end.

(** Lines 72-77, as a function of the catalogue's content. *)
Definition mosaic (catalogue : list Image) : Bands :=
  qualityMosaic "quality_score"
    (map addQualityBand
       (map maskL8sr
          (filterDate startDate endDate
             (filter pathRowFilters catalogue)))).

(** Lines 79-82. *)
Definition landsatBands : list (string * string) :=
  [("blue", "SR_B2"); ("green", "SR_B3"); ("red", "SR_B4");
   ("nir", "SR_B5"); ("swir1", "SR_B6"); ("swir2", "SR_B7")].

Definition newNames : list string := map fst landsatBands.
Definition currentNames : list string := map snd landsatBands.

Definition mosaicRenamed (catalogue : list Image) : Bands :=
  select_rename (combine currentNames newNames) (mosaic catalogue).

End Imagery.

(** ** Derived spectral indices (lines 84-98) *)

Module Features.
Import Imagery.

Local Open Scope string_scope.

(** The expression language of [image.expression]: band references
    [b("name")], numeric literals and arithmetic. *)
Inductive expr : Type :=
| b (name : string)
| num (c : Q)
| neg (e : expr)
| plus (e1 e2 : expr)
| minus (e1 e2 : expr)
| times (e1 e2 : expr)
| divide (e1 e2 : expr).

(** Modelled from the spec: division is a primitive of the raster engine,
    outside the script.  A zero denominator leaves the pixel unset. *)
Definition safe_divide (x y : Q) : option Q :=
  if Qeq_bool y 0 then None else Some (x / y)%Q.

Definition lift2 (f : Q -> Q -> Q) (x y : option Q) : option Q :=
  match x, y with
  | Some u, Some v => Some (f u v)
  | _, _ => None
  end.

(** The value of an expression at one pixel; [env] gives the value of
    each band there.  A masked operand masks the result. *)
Fixpoint eval (env : string -> option Q) (e : expr) : option Q :=
  match e with
  | b name => env name
  | num c => Some c
  | neg e1 => option_map Qopp (eval env e1)
  | plus e1 e2 => lift2 Qplus (eval env e1) (eval env e2)
  | minus e1 e2 => lift2 Qminus (eval env e1) (eval env e2)
  | times e1 e2 => lift2 Qmult (eval env e1) (eval env e2)
  | divide e1 e2 =>
      match eval env e1, eval env e2 with
      | Some u, Some v => safe_divide u v
      | _, _ => None
      end
  end.

(** Some division met while evaluating [e] has a denominator that
    evaluates to zero. *)
Fixpoint divides_by_zero (env : string -> option Q) (e : expr) : bool :=
  match e with
  | b _ | num _ => false
  | neg e1 => divides_by_zero env e1
  | plus e1 e2 | minus e1 e2 | times e1 e2 =>
      divides_by_zero env e1 || divides_by_zero env e2
  | divide e1 e2 =>
      divides_by_zero env e1 || divides_by_zero env e2
      || match eval env e2 with
         | Some v => Qeq_bool v 0
         | None => false
         end
  end.

Definition expression (e : expr) (image : Bands) : Bands :=
  [("constant", fun p => eval (fun name => band_value image name p) e)].

(** [normalizedDifference([x, y])] is (x - y) / (x + y); the engine masks
    the result where either input is negative. *)
Definition normalizedDifference (x y : string) (image : Bands) : Bands :=
  [("nd", fun p =>
            match band_value image x p, band_value image y p with
            | Some u, Some v =>
                if Engine.Q_ltb u 0 || Engine.Q_ltb v 0 then None
                else safe_divide (u - v) (u + v)
            | _, _ => None
            end)].

Definition getNDVI (image : Bands) : Bands :=
  rename "ndvi" (normalizedDifference "nir" "red" image).

Definition getNDWI (image : Bands) : Bands :=
  rename "ndwi" (normalizedDifference "nir" "swir1" image).

Definition getSAVI (image : Bands) : Bands :=
  rename "savi"
    (expression
       (divide (times (num 1.5) (minus (b "nir") (b "red")))
               (plus (plus (num 0.5) (b "nir")) (b "red")))
       image).

Definition getPRI (image : Bands) : Bands :=
  rename "pri"
    (expression
       (divide (minus (b "blue") (b "green")) (plus (b "blue") (b "green")))
       image).

Definition getCAI (image : Bands) : Bands :=
  rename "cai" (expression (divide (b "swir2") (b "swir1")) image).

Definition getEVI (image : Bands) : Bands :=
  rename "evi"
    (expression
       (times (num 2.5)
          (divide (minus (b "nir") (b "red"))
             (plus (minus (plus (b "nir") (times (num 6) (b "red")))
                          (times (num 7.5) (b "blue")))
                   (num 1))))
       image).

Definition getEVI2 (image : Bands) : Bands :=
  rename "evi2"
    (expression
       (divide (times (num 2.5) (minus (b "nir") (b "red")))
               (plus (plus (b "nir") (times (num 2.4) (b "red"))) (num 1)))
       image).

Definition getHallCover (image : Bands) : Bands :=
  rename "hallcover"
    (expression
       (plus (minus (minus (times (neg (b "red")) (num 0.017))
                           (times (b "nir") (num 0.007)))
                    (times (b "swir2") (num 0.079)))
             (num 5.22))
       image).

Definition getHallHeigth (image : Bands) : Bands :=
  rename "hallheigth"
    (expression
       (plus (minus (minus (times (neg (b "red")) (num 0.039))
                           (times (b "nir") (num 0.011)))
                    (times (b "swir1") (num 0.026)))
             (num 4.13))
       image).

Definition getGCVI (image : Bands) : Bands :=
  rename "gcvi"
    (expression (minus (divide (b "nir") (b "green")) (num 1)) image).

(** Line 95. *)
Definition with_indices (image : Bands) : Bands :=
  addBands (addBands (addBands (addBands (addBands
    (addBands (addBands (addBands (addBands (addBands image
      (getNDVI image)) (getNDWI image)) (getSAVI image)) (getPRI image))
      (getCAI image)) (getEVI image)) (getEVI2 image)) (getHallCover image))
      (getHallHeigth image)) (getGCVI image).

Definition mosaicWithIndices (catalogue : list Image) : Bands :=
  with_indices (mosaicRenamed catalogue).

Definition allPredictors : list string :=
  ["blue"; "green"; "red"; "nir"; "swir1"; "swir2"; "ndvi"; "ndwi"; "savi";
   "pri"; "cai"; "evi"; "evi2"; "hallcover"; "hallheigth"; "gcvi"].

Definition predictorImage (catalogue : list Image) : Bands :=
  select_rename (combine allPredictors allPredictors)
                (mosaicWithIndices catalogue).

End Features.

(** ** Sections 5 and 6 of the script: the sweep and the selection *)

Module Tuning.
Import Features.

(** Line 17. *)
Definition numTreesList : list Z := [50; 100; 150; 200; 250; 300].

(** A sampled feature: the predictor values at a point and its class. *)
Record Example : Type := mkExample {
  properties : list (string * Q);
  target_class : Z
}.

(** One entry of [results]: [ee.Feature(null, {trees, accuracy})].  The
    accuracy is a deferred engine value; [None] stands for a computation
    the engine rejects when it is evaluated. *)
Record Candidate : Type := mkCandidate {
  trees : Z;
  accuracy : option Q
}.

(** Modelled from the spec: [errorMatrix] and [accuracy] are primitives
    of the engine, outside the script.  [errorMatrix(actual, predicted)]
    counts the features by (actual, predicted) class over classes
    0 .. max, and [accuracy()] = trace / total.  On an empty matrix the quotient is the
    rationals' total division; no statement below depends on that value. *)
Definition cell (validation : list (Example * Z)) (i j : nat) : Z :=
  Z.of_nat (List.length (filter
    (fun ep => (target_class (fst ep) =? Z.of_nat i)
               && (snd ep =? Z.of_nat j)) validation)).

Definition order (validation : list (Example * Z)) : nat :=
  match validation with
  | [] => O
  | _ => S (Z.to_nat (fold_right
                        (fun ep m => Z.max (Z.max (target_class (fst ep))
                                                  (snd ep)) m)
                        0 validation))
  end.

Definition errorMatrix (validation : list (Example * Z)) : list (list Z) :=
  let n := order validation in
  map (fun i => map (fun j => cell validation i j) (seq 0 n)) (seq 0 n).

Definition sumZ (l : list Z) : Z := fold_right Z.add 0 l.

Definition matrix_trace (m : list (list Z)) : Z :=
  sumZ (map (fun i => nth i (nth i m []) 0) (seq 0 (List.length m))).

Definition matrix_total (m : list (list Z)) : Z := sumZ (map sumZ m).

Definition matrix_accuracy (m : list (list Z)) : Q :=
  (inject_Z (matrix_trace m) / inject_Z (matrix_total m))%Q.

Section Sweep.

(** The engine's random-forest primitive:
    [smileRandomForest(n).train({features, classProperty, inputProperties})]
    and the class a trained classifier gives to one feature. *)
Variable Classifier : Type.
Variable smileRandomForest_train :
  Z -> list Example -> list string -> option Classifier.
Variable classify_feature : Classifier -> Example -> Z.

(** [testingData.classify(classifier)] adds the [classification]
    property to every feature. *)
Definition classify (data : list Example) (classifier : Classifier)
  : list (Example * Z) :=
  map (fun e => (e, classify_feature classifier e)) data.

(** The accuracy of the classifier with [n] trees, trained on all of
    the training data and scored on all of the testing data. *)
Definition scored (trainingData testingData : list Example) (n : Z)
  : option Q :=
  option_map
    (fun c => matrix_accuracy (errorMatrix (classify testingData c)))
    (smileRandomForest_train n trainingData allPredictors).

(** The body of the function mapped over [numTreesList], lines 117-133
    (the console output of the [print] calls is left out). *)
Definition tune (trainingData testingData : list Example) (n_trees : Z)
  : Candidate :=
  let classifier :=
    smileRandomForest_train n_trees trainingData allPredictors in
  let validation := option_map (classify testingData) classifier in
  let errorMatrix := option_map errorMatrix validation in
  let accuracy := option_map matrix_accuracy errorMatrix in
  {| trees := n_trees; accuracy := accuracy |}.

Definition results (trainingData testingData : list Example)
           (numTreesList : list Z) : list Candidate :=
  map (tune trainingData testingData) numTreesList.

End Sweep.

(** Evaluation of the deferred accuracies, needed to sort. *)
Fixpoint evaluate (l : list Candidate) : option (list (Z * Q)) :=
  match l with
  | [] => Some []
  | c :: rest =>
      match accuracy c, evaluate rest with
      | Some a, Some l' => Some ((trees c, a) :: l')
      | _, _ => None
      end
  end.

(** Modelled from the spec: [sort('accuracy', false)] is a primitive of
    the engine, outside the script.  It is a stable sort, descending by
    accuracy: among equal accuracies the earlier feature stays first. *)
Fixpoint insert_descending (c : Z * Q) (sorted : list (Z * Q))
  : list (Z * Q) :=
  match sorted with
  | [] => [c]
  | d :: rest => if Engine.Q_leb (snd d) (snd c) then c :: d :: rest
                 else d :: insert_descending c rest
  end.

Fixpoint sort_descending (l : list (Z * Q)) : list (Z * Q) :=
  match l with
  | [] => []
  | c :: rest => insert_descending c (sort_descending rest)
  end.

(** Line 140: [resultsFC.sort('accuracy', false).first().get('trees')]. *)
Definition bestNumberOfTrees (results : list Candidate) : option Z :=
  match evaluate results with
  | Some l => match sort_descending l with
              | c :: _ => Some (fst c)
              | [] => None
              end
  | None => None
  end.

(** A small engine used to run the sweep on concrete data: training
    remembers the class of the first example and fails without one. *)
Definition first_class_train (n : Z) (data : list Example)
           (inputs : list string) : option Z :=
  match data with
  | [] => None
  | e :: _ => Some (target_class e)
  end.

Definition first_class_classify (c : Z) (e : Example) : Z := c.

End Tuning.

(** ** Concrete inputs on which the definitions are run *)

Module Scenario.
Import Engine Labels.

Local Open Scope string_scope.

Definition blank_row : LabelRow :=
  {| lon := Some "92.75"; lat := Some "24.10";
     Forest := 0; Tree_Based_AG := 0; Wet_Paddy := 0; Grassland := 0;
     Urban := 0; Shifting_Cultivation := 0;
     Non_Tree_based_agriculture := 0; Other := 0 |}.

Definition forest_row : LabelRow :=
  {| lon := Some "92.10"; lat := Some "24.50";
     Forest := 1; Tree_Based_AG := 0; Wet_Paddy := 0; Grassland := 0;
     Urban := 0; Shifting_Cultivation := 0;
     Non_Tree_based_agriculture := 0; Other := 0 |}.

Definition urban_row : LabelRow :=
  {| lon := Some "91.88"; lat := Some "24.89";
     Forest := 0; Tree_Based_AG := 0; Wet_Paddy := 0; Grassland := 0;
     Urban := 1; Shifting_Cultivation := 0;
     Non_Tree_based_agriculture := 0; Other := 1 |}.

Definition table : list LabelRow := [forest_row; urban_row; blank_row].

Definition draw (i : nat) : Q :=
  match i with
  | O => 0.25
  | S O => 0.93
  | _ => 0.8
  end.

(** Two scenes of tile (135, 41) in December 2018.  At pixel (0, 0) the
    first one has QA_PIXEL = 22280 (bit 3, cloud, is set) and a bright
    reflectance; the second one is clear there (QA_PIXEL = 21824). *)
Import Imagery.

Definition origin : Loc := (0, 0)%Z.

Definition uniform (v : Q) : Raster := fun _ => Some v.

Definition cloudy_scene : Image :=
  {| bands := [("SR_B2", uniform 29000); ("SR_B3", uniform 29500);
               ("SR_B4", uniform 30000); ("SR_B5", uniform 31000);
               ("SR_B6", uniform 20000); ("SR_B7", uniform 18000);
               ("QA_PIXEL", uniform 22280)];
     WRS_PATH := 135; WRS_ROW := 41;
     time_start := {| dyear := 2018; dmonth := 12; dday := 10 |};
     CLOUD_COVER := 5 |}.

Definition clear_scene : Image :=
  {| bands := [("SR_B2", uniform 8000); ("SR_B3", uniform 8600);
               ("SR_B4", uniform 8400); ("SR_B5", uniform 17000);
               ("SR_B6", uniform 12000); ("SR_B7", uniform 9500);
               ("QA_PIXEL", uniform 21824)];
     WRS_PATH := 135; WRS_ROW := 41;
     time_start := {| dyear := 2018; dmonth := 12; dday := 26 |};
     CLOUD_COVER := 40 |}.

Definition catalogue : list Image := [clear_scene; cloudy_scene].

(** The candidates of the specification's tie-break example, and two
    sampled features. *)
Import Tuning.

Definition tied_candidates : list Candidate :=
  [{| trees := 50; accuracy := Some 0.80%Q |};
   {| trees := 100; accuracy := Some 0.85%Q |};
   {| trees := 150; accuracy := Some 0.85%Q |}].

Definition forest_example : Example :=
  {| properties := [("red", 0.03%Q); ("nir", 0.31%Q)]; target_class := 0 |}.

Definition urban_example : Example :=
  {| properties := [("red", 0.18%Q); ("nir", 0.22%Q)]; target_class := 4 |}.

(** Composite pixels: one with all raw bands at zero, one with the band
    values of the specification's example. *)
Definition dark_pixel : Bands :=
  [("blue", uniform 0); ("green", uniform 0); ("red", uniform 0);
   ("nir", uniform 0); ("swir1", uniform 0); ("swir2", uniform 0)].

Definition example_pixel : Bands :=
  [("blue", uniform 0.1); ("green", uniform 0.3); ("red", uniform 0.2);
   ("nir", uniform 0.4); ("swir1", uniform 0.25); ("swir2", uniform 0.15)].

End Scenario.

(** ** Section 4 of the script, continued: sampling, and the script as a whole *)

Module Sampling.
Import Engine Labels Imagery Features Tuning.

(** The values of all bands at one pixel, in band order; none when some
    band is masked there. *)
Fixpoint pixel_values (image : Bands) (p : Loc) : option (list (string * Q)) :=
  match image with
  | [] => Some []
  | (n, r) :: rest =>
      match r p, pixel_values rest p with
      | Some v, Some vs => Some ((n, v) :: vs)
      | _, _ => None
      end
  end.

Section Pipeline.

(** The pixel, at the 30 m scale of the script, that contains a point. *)
Variable locate : ee_number * ee_number -> Loc.

(** Modelled from the spec: [sampleRegions] is a primitive of the engine,
    outside the script.  For
    [sampleRegions({collection, properties: ['target_class'], scale: 30})]
    it gives one feature per point, with one property per band of the
    image and the point's [target_class]; a point whose pixel is not set
    in all bands is skipped. *)
Definition sample (image : Bands) (sp : SplitPoint) : option Example :=
  option_map
    (fun vs => {| properties := vs;
                  Tuning.target_class := Labels.target_class (point sp) |})
    (pixel_values image (locate (geometry (point sp)))).

Definition sampleRegions (image : Bands) (collection : list SplitPoint)
  : list Example :=
  flat_map (fun sp => match sample image sp with
                      | Some e => [e]
                      | None => []
                      end) collection.

(** Lines 108-109. *)
Definition trainingData (catalogue : list Image) (draw : nat -> Q)
           (table : list LabelRow) : list Example :=
  sampleRegions (predictorImage catalogue) (trainingSet draw table).

Definition testingData (catalogue : list Image) (draw : nat -> Q)
           (table : list LabelRow) : list Example :=
  sampleRegions (predictorImage catalogue) (testingSet draw table).

Variable Classifier : Type.
Variable smileRandomForest_train :
  Z -> list Example -> list string -> option Classifier.
Variable classify_feature : Classifier -> Example -> Z.

(** Lines 117-140 on the script's own data: the sweep over
    [numTreesList] and the selected tree count. *)
Definition script_results (catalogue : list Image) (draw : nat -> Q)
           (table : list LabelRow) : list Candidate :=
  results Classifier smileRandomForest_train classify_feature
          (trainingData catalogue draw table)
          (testingData catalogue draw table) numTreesList.

Definition script_bestNumberOfTrees (catalogue : list Image)
           (draw : nat -> Q) (table : list LabelRow) : option Z :=
  bestNumberOfTrees (script_results catalogue draw table).

(** Lines 146-150: the final classifier, trained with the selected tree
    count on the training data. *)
Definition finalClassifier (catalogue : list Image) (draw : nat -> Q)
           (table : list LabelRow) : option Classifier :=
  match script_bestNumberOfTrees catalogue draw table with
  | Some n => smileRandomForest_train n (trainingData catalogue draw table)
                                      allPredictors
  | None => None
  end.

End Pipeline.

End Sampling.

(** ** Auxiliary notions used to state properties *)

Module Analysis.
Import Features Tuning.

(** The bands an expression refers to. *)
Fixpoint references (e : expr) : list string :=
  match e with
  | b name => [name]
  | num _ => []
  | neg e1 => references e1
  | plus e1 e2 | minus e1 e2 | times e1 e2 | divide e1 e2 =>
      references e1 ++ references e2
  end.

(** The number of validation features whose predicted class is the
    actual one. *)
Definition correct (validation : list (Example * Z)) : nat :=
  List.length (filter (fun ep => target_class (fst ep) =? snd ep) validation).

End Analysis.

(** ** Further concrete inputs *)

Module Runs.
Import Engine Labels Imagery Scenario.

Local Open Scope string_scope.

(** Every point falls on the pixel at the origin. *)
Definition at_origin (g : ee_number * ee_number) : Loc := origin.

(** A scene of the neighbouring month and a scene of a tile outside the
    list. *)
Definition january_scene : Image :=
  {| bands := bands clear_scene; WRS_PATH := 135; WRS_ROW := 41;
     time_start := {| dyear := 2019; dmonth := 1; dday := 1 |};
     CLOUD_COVER := 0 |}.

Definition far_scene : Image :=
  {| bands := bands clear_scene; WRS_PATH := 140; WRS_ROW := 41;
     time_start := {| dyear := 2018; dmonth := 12; dday := 15 |};
     CLOUD_COVER := 0 |}.

(** A scene whose cloud cover, 0.1, gives a quality score that is not a
    single-precision number, and a composite pixel with a negative red
    reflectance. *)
Definition hazy_scene : Image :=
  {| bands := bands cloudy_scene; WRS_PATH := 135; WRS_ROW := 41;
     time_start := {| dyear := 2018; dmonth := 12; dday := 18 |};
     CLOUD_COVER := 0.1 |}.


(** A row without latitude. *)
Definition unlocated_row : LabelRow :=
  {| lon := Some "92.30"; lat := None;
     Forest := 1; Tree_Based_AG := 0; Wet_Paddy := 0; Grassland := 0;
     Urban := 0; Shifting_Cultivation := 0;
     Non_Tree_based_agriculture := 0; Other := 0 |}.

(** A composite pixel whose red band is masked. *)
Definition red_masked_pixel : Bands :=
  [("blue", uniform 0.1); ("green", uniform 0.3); ("red", fun _ => None);
   ("nir", uniform 0.4); ("swir1", uniform 0.25); ("swir2", uniform 0.15)].

End Runs.

(** * Properties *)

(** ** Comparisons of the engine *)

Section Comparisons.
Import Engine.

Lemma Q_leb_le (x y : Q) : Q_leb x y = true <-> (x <= y)%Q.
Proof. unfold Q_leb, Qle. apply Z.leb_le. Qed.

Lemma Q_ltb_lt (x y : Q) : Q_ltb x y = true <-> (x < y)%Q.
Proof. unfold Q_ltb, Qlt. apply Z.ltb_lt. Qed.

Lemma Q_ltb_antisym (x y : Q) : Q_ltb y x = negb (Q_leb x y).
Proof. unfold Q_ltb, Q_leb. apply Z.ltb_antisym. Qed.

Lemma Filter_gt_not_lte (x bound : Q) :
  Filter_gt x bound = negb (Filter_lte x bound).
Proof. unfold Filter_gt, Filter_lte. apply Q_ltb_antisym. Qed.

End Comparisons.

(** ** The label joiner *)

Section LabelProperties.
Import Engine Labels.

Lemma classNumber_first_flag (r : LabelRow) :
  classNumber r =
  match first_flag_index (spec_priority_order r) with
  | Some i => Z.of_nat i
  | None => 99
  end.
Proof.
  unfold classNumber, spec_priority_order, Algorithms_If, Number_eq.
  cbn [first_flag_index].
  repeat match goal with
         | |- context [?x =? 1] => destruct (x =? 1)
         end; reflexivity.
Qed.

Lemma first_flag_index_bound (flags : list Z) (i : nat) :
  first_flag_index flags = Some i -> (i < List.length flags)%nat.
Proof.
  revert i. induction flags as [|f rest IH]; intros i; cbn.
  - discriminate.
  - destruct (f =? 1).
    + intros [= <-]. lia.
    + destruct (first_flag_index rest) as [j|]; cbn; [|discriminate].
      intros [= <-]. specialize (IH j eq_refl). lia.
Qed.

Lemma classNumber_range (r : LabelRow) :
  0 <= classNumber r <= 7 \/ classNumber r = 99.
Proof.
  rewrite classNumber_first_flag.
  destruct (first_flag_index (spec_priority_order r)) as [i|] eqn:E.
  - left. apply first_flag_index_bound in E. cbn in E. lia.
  - now right.
Qed.

Lemma In_points (table : list LabelRow) (p : Point) :
  In p (points table) <->
  exists r, In r table /\ notNull_lon_lat r = true /\ p = label_feature r.
Proof.
  unfold points. rewrite in_map_iff. split.
  - intros [r [<- H]]. apply filter_In in H. exists r. tauto.
  - intros [r [H1 [H2 ->]]]. exists r. split; [reflexivity|].
    apply filter_In. tauto.
Qed.

Lemma In_finalPoints (table : list LabelRow) (p : Point) :
  In p (finalPoints table) <-> In p (points table) /\ target_class p < 99.
Proof.
  unfold finalPoints. rewrite filter_In. unfold Filter_lt.
  now rewrite Z.ltb_lt.
Qed.

Lemma finalPoints_class_range (table : list LabelRow) (p : Point) :
  In p (finalPoints table) -> 0 <= target_class p <= 7.
Proof.
  rewrite In_finalPoints, In_points. intros [[r [_ [_ ->]]] H].
  cbn in *. destruct (classNumber_range r); lia.
Qed.

Lemma In_randomColumn_from (draw : nat -> Q) (l : list Point) (i : nat)
      (sp : SplitPoint) :
  In sp (randomColumn_from draw i l) -> In (point sp) l.
Proof.
  revert i. induction l as [|p l IH]; intros i; cbn; [tauto|].
  intros [<- | H]; [now left | right; eauto].
Qed.

Lemma randomColumn_from_points (draw : nat -> Q) (l : list Point) (i : nat) :
  map point (randomColumn_from draw i l) = l.
Proof.
  revert i. induction l as [|p l IH]; intros i; cbn; [reflexivity|].
  now rewrite IH.
Qed.

Lemma filter_complement_Permutation {A : Type} (f g : A -> bool)
      (l : list A) :
  (forall x, g x = negb (f x)) ->
  Permutation (filter f l ++ filter g l) l.
Proof.
  intros Hg. induction l as [|x l IH]; cbn; [constructor|].
  rewrite Hg. destruct (f x); cbn.
  - now constructor.
  - symmetry. apply Permutation_cons_app. now symmetry.
Qed.

End LabelProperties.

Section LabelClaims.
Import Engine Labels.

(** C1.  A label row with lon and lat present is given, as class code,
    the 0-based position of the first flag equal to 1 in the order
    Forest, Tree Based AG, Wet Paddy, Grassland, Urban, Shifting
    Cultivation, Non-Tree based agriculture, Other, and then survives the
    filter; with no flag equal to 1 it is given 99 and no surviving point
    comes from it. *)
Theorem priority_chain_first_match (table : list LabelRow) (r : LabelRow) :
  In r table -> lon r <> None -> lat r <> None ->
  In (label_feature r) (points table) /\
  match first_flag_index (spec_priority_order r) with
  | Some i => target_class (label_feature r) = Z.of_nat i /\
              In (label_feature r) (finalPoints table)
  | None => target_class (label_feature r) = 99 /\
            forall p, In p (finalPoints table) -> feature p <> r
  end.
Proof.
  intros Hin Hlon Hlat.
  assert (Hpts : In (label_feature r) (points table)).
  { apply In_points. exists r. repeat split; trivial.
    unfold notNull_lon_lat.
    destruct (lon r); [|congruence]. destruct (lat r); congruence. }
  split; [exact Hpts|].
  pose proof (classNumber_first_flag r) as Hc.
  destruct (first_flag_index (spec_priority_order r)) as [i|] eqn:E.
  - split; [exact Hc|].
    apply In_finalPoints. split; [exact Hpts|].
    apply first_flag_index_bound in E. cbn in E |- *. lia.
  - split; [exact Hc|].
    intros p Hp Hfeat. apply In_finalPoints in Hp. destruct Hp as [Hp Hlt].
    apply In_points in Hp. destruct Hp as [r' [_ [_ ->]]].
    cbn in Hfeat, Hlt. subst r'. lia.
Qed.

Lemma priority_chain_first_match_witness :
  In (label_feature Scenario.urban_row) (points Scenario.table) /\
  target_class (label_feature Scenario.urban_row) = 4 /\
  In (label_feature Scenario.urban_row) (finalPoints Scenario.table).
Proof.
  pose proof (priority_chain_first_match Scenario.table Scenario.urban_row)
    as H.
  cbn in H. apply H; [tauto | discriminate | discriminate].
Defined.

(** C10.  The priority chain yields a value of {0, ..., 7, 99}; hence
    every point that survives the filter below 99, and so every point of
    the training and of the testing partition, carries a class code in
    {0, ..., 7}. *)
Theorem class_codes_in_range (draw : nat -> Q) (table : list LabelRow) :
  (forall r, In (classNumber r) [0; 1; 2; 3; 4; 5; 6; 7; 99]) /\
  (forall p, In p (finalPoints table) -> 0 <= target_class p <= 7) /\
  (forall sp, In sp (trainingSet draw table) ->
              0 <= target_class (point sp) <= 7) /\
  (forall sp, In sp (testingSet draw table) ->
              0 <= target_class (point sp) <= 7).
Proof.
  split; [|split; [|split]].
  - intros r. destruct (classNumber_range r) as [H | ->].
    + assert (classNumber r = 0 \/ classNumber r = 1 \/ classNumber r = 2 \/
              classNumber r = 3 \/ classNumber r = 4 \/ classNumber r = 5 \/
              classNumber r = 6 \/ classNumber r = 7) as Hc by lia.
      cbn. intuition congruence.
    + cbn. tauto.
  - apply finalPoints_class_range.
  - intros sp H. apply filter_In in H. destruct H as [H _].
    apply In_randomColumn_from in H.
    now apply finalPoints_class_range in H.
  - intros sp H. apply filter_In in H. destruct H as [H _].
    apply In_randomColumn_from in H.
    now apply finalPoints_class_range in H.
Qed.

Lemma class_codes_in_range_witness :
  0 <= target_class (label_feature Scenario.forest_row) <= 7.
Proof.
  apply (proj1 (proj2 (class_codes_in_range Scenario.draw Scenario.table))).
  cbn. tauto.
Defined.

(** C5.  Each surviving point is in exactly one partition: split key at
    most 0.8 puts it in the training set, split key above 0.8 in the
    testing set; the two sets are disjoint and together make up the
    surviving points. *)
Theorem split_is_partition (draw : nat -> Q) (table : list LabelRow) :
  (forall sp, In sp (trainingSet draw table) <->
              In sp (finalPoints_random draw table) /\ (random sp <= 0.8)%Q) /\
  (forall sp, In sp (testingSet draw table) <->
              In sp (finalPoints_random draw table) /\ (0.8 < random sp)%Q) /\
  (forall sp, ~ (In sp (trainingSet draw table) /\
                 In sp (testingSet draw table))) /\
  (forall sp, In sp (finalPoints_random draw table) ->
              In sp (trainingSet draw table) \/
              In sp (testingSet draw table)) /\
  Permutation (trainingSet draw table ++ testingSet draw table)
              (finalPoints_random draw table).
Proof.
  assert (Htr : forall sp, In sp (trainingSet draw table) <->
            In sp (finalPoints_random draw table) /\ (random sp <= 0.8)%Q).
  { intros sp. unfold trainingSet. rewrite filter_In.
    unfold Filter_lte. now rewrite Q_leb_le. }
  assert (Hte : forall sp, In sp (testingSet draw table) <->
            In sp (finalPoints_random draw table) /\ (0.8 < random sp)%Q).
  { intros sp. unfold testingSet. rewrite filter_In.
    unfold Filter_gt. now rewrite Q_ltb_lt. }
  split; [exact Htr|]. split; [exact Hte|]. split; [|split].
  - intros sp [H1 H2]. apply Htr in H1. apply Hte in H2.
    destruct H1 as [_ H1]. destruct H2 as [_ H2].
    exact (Qlt_not_le _ _ H2 H1).
  - intros sp H. destruct (Qlt_le_dec 0.8 (random sp)) as [Hlt | Hle].
    + right. apply Hte. now split.
    + left. apply Htr. now split.
  - unfold trainingSet, testingSet.
    apply filter_complement_Permutation.
    intros sp. apply Filter_gt_not_lte.
Qed.

Lemma split_is_partition_witness :
  In {| point := label_feature Scenario.urban_row; random := 0.93 |}
     (testingSet Scenario.draw Scenario.table).
Proof.
  apply (proj1 (proj2 (split_is_partition Scenario.draw Scenario.table))).
  split; [cbn; tauto | reflexivity].
Defined.

End LabelClaims.

(** ** Masking and rescaling of a scene *)

Section BandLemmas.
Import Imagery.

Lemma lookup_band_pixelwise (f : Q -> Q) (name : string) (bs : Bands) :
  lookup_band name (pixelwise f bs) =
  option_map (fun r : Raster => fun p => option_map f (r p))
             (lookup_band name bs).
Proof.
  induction bs as [|[n r] bs IH]; cbn; [reflexivity|].
  destruct (String.eqb n name); [reflexivity | exact IH].
Qed.

Lemma band_value_pixelwise (f : Q -> Q) (bs : Bands) (name : string)
      (p : Loc) :
  band_value (pixelwise f bs) name p = option_map f (band_value bs name p).
Proof.
  unfold band_value. rewrite lookup_band_pixelwise.
  now destruct (lookup_band name bs).
Qed.

Lemma names_pixelwise (f : Q -> Q) (bs : Bands) :
  map fst (pixelwise f bs) = map fst bs.
Proof. unfold pixelwise. rewrite map_map. reflexivity. Qed.

Lemma mask_raster_pixelwise (f : Q -> Q) (mask : Bands) (p : Loc) :
  mask_raster (pixelwise f mask) p = option_map f (mask_raster mask p).
Proof. destruct mask as [|[n r] mask]; reflexivity. Qed.

Lemma mask_raster_select (name : string) (bs : Bands) (p : Loc) :
  mask_raster (select name bs) p = band_value bs name p.
Proof.
  unfold band_value.
  induction bs as [|[n r] bs IH]; cbn; [reflexivity|].
  destruct (String.eqb n name); [reflexivity | exact IH].
Qed.

Lemma lookup_band_select_starting (pre name : string) (bs : Bands) :
  lookup_band name (select_starting pre bs) =
  if String.prefix pre name then lookup_band name bs else None.
Proof.
  unfold select_starting.
  induction bs as [|[n r] bs IH]; cbn.
  - now destruct (String.prefix pre name).
  - destruct (String.eqb_spec n name) as [-> | Hne].
    + destruct (String.prefix pre name) eqn:E; cbn.
      * now rewrite String.eqb_refl.
      * exact IH.
    + destruct (String.prefix pre n); cbn; [|exact IH].
      apply String.eqb_neq in Hne. now rewrite Hne.
Qed.

Lemma NoDup_names_filter (f : string * Raster -> bool) (bs : Bands) :
  NoDup (map fst bs) -> NoDup (map fst (filter f bs)).
Proof.
  induction bs as [|b bs IH]; cbn; [trivial|].
  intros H. inversion H as [|? ? Hnot Hnd]; subst.
  destruct (f b); cbn; [|auto].
  constructor; [|auto].
  intros Hin. apply Hnot. apply in_map_iff in Hin.
  destruct Hin as [x [Hx Hin]]. apply filter_In in Hin.
  apply in_map_iff. exists x. tauto.
Qed.

Lemma lookup_band_overwrite (name m : string) (r : Raster) (bs : Bands) :
  lookup_band name (overwrite_band m r bs) =
  if String.eqb m name then Some r else lookup_band name bs.
Proof.
  induction bs as [|[n r'] bs IH]; cbn.
  - reflexivity.
  - destruct (String.eqb_spec n m) as [-> | Hnm]; cbn.
    + now destruct (String.eqb m name).
    + destruct (String.eqb_spec n name) as [-> | Hn].
      * apply String.eqb_neq in Hnm. rewrite String.eqb_sym in Hnm.
        now rewrite Hnm.
      * exact IH.
Qed.

Lemma lookup_band_not_in (name : string) (bs : Bands) :
  ~ In name (map fst bs) -> lookup_band name bs = None.
Proof.
  induction bs as [|[n r] bs IH]; cbn; [reflexivity|].
  intros H. destruct (String.eqb_spec n name); [tauto | apply IH; tauto].
Qed.


Lemma lookup_band_fold_other (name : string) (src dst : Bands) :
  lookup_band name src = None ->
  lookup_band name
    (fold_left (fun acc b => overwrite_band (fst b) (snd b) acc) src dst) =
  lookup_band name dst.
Proof.
  revert dst. induction src as [|[m r] src IH]; intros dst; cbn;
    [reflexivity|].
  destruct (String.eqb m name) eqn:E; [discriminate|].
  intros H. rewrite IH by exact H.
  rewrite lookup_band_overwrite. now rewrite E.
Qed.

Lemma lookup_band_fold_overwritten (name : string) (r : Raster)
      (src dst : Bands) :
  NoDup (map fst src) ->
  lookup_band name src = Some r ->
  lookup_band name
    (fold_left (fun acc b => overwrite_band (fst b) (snd b) acc) src dst) =
  Some r.
Proof.
  revert dst. induction src as [|[m r'] src IH]; intros dst Hnd; cbn;
    [discriminate|].
  inversion Hnd as [|? ? Hnot Hnd']; subst.
  destruct (String.eqb_spec m name) as [-> | Hne].
  - intros [= ->]. rewrite lookup_band_fold_other.
    + rewrite lookup_band_overwrite. now rewrite String.eqb_refl.
    + now apply lookup_band_not_in.
  - intros H. now apply IH.
Qed.

Lemma lookup_band_updateMask (image : Image) (mask : Bands) (name : string) :
  lookup_band name (bands (updateMask image mask)) =
  option_map
    (fun r : Raster =>
       fun p => match r p, mask_raster mask p with
                | Some v, Some m => if Qeq_bool m 0 then None else Some v
                | _, _ => None
                end)
    (lookup_band name (bands image)).
Proof.
  cbn. induction (bands image) as [|[n r] bs IH]; cbn; [reflexivity|].
  destruct (String.eqb n name); [reflexivity | exact IH].
Qed.

(** The script's mask test against the specification's wording. *)
Lemma cloudMask_bits (i : Z) :
  Z.testbit cloudMask i = (i =? 1) || (i =? 3) || (i =? 4).
Proof.
  change cloudMask with 26.
  destruct (Z.ltb_spec i 0) as [Hneg | Hpos].
  - rewrite Z.testbit_neg_r by lia.
    symmetry. repeat rewrite orb_false_iff. repeat split; lia.
  - destruct (Z.ltb_spec i 5) as [Hlt | Hge].
    + assert (i = 0 \/ i = 1 \/ i = 2 \/ i = 3 \/ i = 4) as Hi by lia.
      destruct Hi as [-> | [-> | [-> | [-> | ->]]]]; reflexivity.
    + rewrite Z.bits_above_log2; [|lia|].
      * symmetry. repeat rewrite orb_false_iff. repeat split; lia.
      * change (Z.log2 26) with 4. lia.
Qed.

Lemma land_cloudMask_spec (qa : Z) :
  (Z.land qa cloudMask =? 0) = negb (spec_masked qa).
Proof.
  unfold spec_masked.
  destruct (Z.eqb_spec (Z.land qa cloudMask) 0) as [H | H].
  - assert (Hb : forall i, Z.testbit qa i && Z.testbit cloudMask i = false).
    { intros i. rewrite <- Z.land_spec, H. apply Z.bits_0. }
    pose proof (Hb 1) as H1. pose proof (Hb 3) as H3.
    pose proof (Hb 4) as H4.
    rewrite cloudMask_bits in H1, H3, H4.
    replace ((1 =? 1) || (1 =? 3) || (1 =? 4)) with true in H1
      by reflexivity.
    replace ((3 =? 1) || (3 =? 3) || (3 =? 4)) with true in H3
      by reflexivity.
    replace ((4 =? 1) || (4 =? 3) || (4 =? 4)) with true in H4
      by reflexivity.
    rewrite andb_true_r in H1, H3, H4.
    rewrite H1, H3, H4. reflexivity.
  - destruct (Z.testbit qa 1) eqn:E1; [reflexivity|].
    destruct (Z.testbit qa 3) eqn:E3; [reflexivity|].
    destruct (Z.testbit qa 4) eqn:E4; [reflexivity|].
    exfalso. apply H. apply Z.bits_inj'. intros i Hi.
    rewrite Z.land_spec, cloudMask_bits, Z.bits_0.
    destruct (Z.eqb_spec i 1) as [-> | _]; [now rewrite E1|].
    destruct (Z.eqb_spec i 3) as [-> | _]; [now rewrite E3|].
    destruct (Z.eqb_spec i 4) as [-> | _]; [now rewrite E4|].
    apply andb_false_r.
Qed.

Lemma Qeq_bool_inject_Z_0 (z : Z) : Qeq_bool (inject_Z z) 0 = (z =? 0).
Proof.
  destruct (Z.eqb_spec z 0) as [-> | Hne].
  - reflexivity.
  - destruct (Qeq_bool (inject_Z z) 0) eqn:E; [|reflexivity].
    apply Qeq_bool_eq in E. unfold Qeq in E. cbn in E. lia.
Qed.

End BandLemmas.

Section MaskingProperties.
Import Imagery.

Local Open Scope string_scope.

(** The validity test of [maskL8sr] at a pixel, in terms of the scene's
    quality value there. *)
Lemma maskL8sr_mask_value (image : Image) (p : Loc) :
  mask_raster
    (eq 0 (bitwiseAnd cloudMask (select "QA_PIXEL" (bands image)))) p =
  option_map (fun qa => if spec_masked (Qfloor qa) then 0 else 1)%Q
             (band_value (bands image) "QA_PIXEL" p).
Proof.
  unfold eq, bitwiseAnd.
  rewrite !mask_raster_pixelwise, mask_raster_select.
  destruct (band_value (bands image) "QA_PIXEL" p) as [qa|]; cbn;
    [|reflexivity].
  rewrite Qeq_bool_inject_Z_0, land_cloudMask_spec.
  now destruct (spec_masked (Qfloor qa)).
Qed.

(** A band that is not a reflectance band keeps its value where the
    quality bits are clear and is masked elsewhere. *)
Lemma maskL8sr_other_band (image : Image) (name : string) (p : Loc) :
  String.prefix "SR_B" name = false ->
  band_value (bands (maskL8sr image)) name p =
  match band_value (bands image) name p,
        band_value (bands image) "QA_PIXEL" p with
  | Some v, Some qa => if spec_masked (Qfloor qa) then None else Some v
  | _, _ => None
  end.
Proof.
  intros Hpre. unfold band_value at 1. unfold maskL8sr.
  cbn [bands copyProperties_CLOUD_COVER addBands_overwrite with_bands].
  rewrite lookup_band_fold_other.
  - rewrite lookup_band_updateMask. unfold band_value at 1.
    destruct (lookup_band name (bands image)) as [r|]; cbn [option_map];
      [|reflexivity].
    rewrite maskL8sr_mask_value.
    destruct (r p) as [v|]; [|reflexivity].
    destruct (band_value (bands image) "QA_PIXEL" p) as [qa|];
      cbn [option_map]; [|reflexivity].
    now destruct (spec_masked (Qfloor qa)).
  - unfold add, multiply. rewrite !lookup_band_pixelwise.
    rewrite lookup_band_select_starting, Hpre. reflexivity.
Qed.

(** A reflectance band is rescaled, and its validity is the one it had
    in the scene: the quality bits do not enter. *)
Lemma maskL8sr_optical_band (image : Image) (name : string) (p : Loc) :
  NoDup (map fst (bands image)) ->
  String.prefix "SR_B" name = true ->
  band_value (bands (maskL8sr image)) name p =
  option_map (fun v => v * 0.0000275 + -0.2)%Q
             (band_value (bands image) name p).
Proof.
  intros Hnd Hpre. unfold band_value. unfold maskL8sr.
  cbn [bands copyProperties_CLOUD_COVER addBands_overwrite with_bands].
  destruct (lookup_band name (bands image)) as [r|] eqn:E.
  - set (optical :=
           add (-0.2) (multiply 0.0000275
                         (select_starting "SR_B" (bands image)))).
    assert (Hnd' : NoDup (map fst optical)).
    { unfold optical, add, multiply. rewrite !names_pixelwise.
      now apply NoDup_names_filter. }
    assert (Hopt : lookup_band name optical =
                   Some (fun q => option_map (fun v => v + -0.2)%Q
                           (option_map (fun v => v * 0.0000275)%Q (r q)))).
    { unfold optical, add, multiply. rewrite !lookup_band_pixelwise.
      rewrite lookup_band_select_starting, Hpre, E. reflexivity. }
    rewrite (lookup_band_fold_overwritten _ _ _ _ Hnd' Hopt).
    now destruct (r p).
  - rewrite lookup_band_fold_other.
    + rewrite lookup_band_updateMask, E. reflexivity.
    + unfold add, multiply. rewrite !lookup_band_pixelwise.
      rewrite lookup_band_select_starting, Hpre, E. reflexivity.
Qed.

End MaskingProperties.

Section MaskingClaims.
Import Imagery Scenario.

Local Open Scope string_scope.

(** C9, evaluated on the code.  The claim is that rescaling touches only
    the reflectance bands and that the cloud and shadow mask is applied
    to all bands alike.  In the script the mask reaches every band but
    the reflectance bands: at a pixel with bit 3 set the quality band of
    the result is masked while the reflectance band is valid and holds
    the rescaled value. *)
Theorem cloud_mask_skips_reflectance_bands :
  spec_masked 22280 = true /\
  band_value (bands cloudy_scene) "QA_PIXEL" origin = Some (inject_Z 22280) /\
  band_value (bands (maskL8sr cloudy_scene)) "QA_PIXEL" origin = None /\
  (exists v, band_value (bands (maskL8sr cloudy_scene)) "SR_B4" origin
             = Some v /\ (v == 30000 * 0.0000275 + -0.2)%Q).
Proof.
  split; [reflexivity|]. split; [reflexivity|]. split; [reflexivity|].
  eexists. split; [vm_compute; reflexivity | reflexivity].
Qed.

End MaskingClaims.

(** ** Derived indices *)

Section FeatureProperties.
Import Engine Imagery Features.

Local Open Scope string_scope.

Lemma safe_divide_zero (x y : Q) : (y == 0)%Q -> safe_divide x y = None.
Proof.
  intros H. unfold safe_divide.
  apply Qeq_bool_iff in H. now rewrite H.
Qed.

Lemma safe_divide_nonzero (x y : Q) :
  ~ (y == 0)%Q -> safe_divide x y = Some (x / y)%Q.
Proof.
  intros H. unfold safe_divide.
  destruct (Qeq_bool y 0) eqn:E; [|reflexivity].
  apply Qeq_bool_iff in E. contradiction.
Qed.

Lemma lift2_None_l (f : Q -> Q -> Q) (y : option Q) : lift2 f None y = None.
Proof. reflexivity. Qed.

Lemma lift2_None_r (f : Q -> Q -> Q) (x : option Q) : lift2 f x None = None.
Proof. now destruct x. Qed.

(** Evaluation propagates a zero denominator as an unset value. *)
Lemma eval_divides_by_zero (env : string -> option Q) (e : expr) :
  divides_by_zero env e = true -> eval env e = None.
Proof.
  induction e as [n | c | e1 IH1 | e1 IH1 e2 IH2 | e1 IH1 e2 IH2
                  | e1 IH1 e2 IH2 | e1 IH1 e2 IH2]; cbn.
  - discriminate.
  - discriminate.
  - intros H. now rewrite IH1.
  - intros H. apply orb_true_iff in H. destruct H as [H | H].
    + now rewrite IH1.
    + rewrite IH2 by exact H. apply lift2_None_r.
  - intros H. apply orb_true_iff in H. destruct H as [H | H].
    + now rewrite IH1.
    + rewrite IH2 by exact H. apply lift2_None_r.
  - intros H. apply orb_true_iff in H. destruct H as [H | H].
    + now rewrite IH1.
    + rewrite IH2 by exact H. apply lift2_None_r.
  - intros H. apply orb_true_iff in H. destruct H as [H | H].
    + apply orb_true_iff in H. destruct H as [H | H].
      * now rewrite IH1.
      * rewrite IH2 by exact H. now destruct (eval env e1).
    + destruct (eval env e2) as [v|]; [|discriminate].
      destruct (eval env e1) as [u|]; [|reflexivity].
      unfold safe_divide. now rewrite H.
Qed.

Lemma normalizedDifference_zero_sum (image : Bands) (x y : string)
      (p : Loc) (u v : Q) :
  band_value image x p = Some u -> band_value image y p = Some v ->
  (u + v == 0)%Q ->
  band_value (normalizedDifference x y image) "nd" p = None.
Proof.
  intros Hu Hv H. unfold normalizedDifference, band_value at 1. cbn.
  rewrite Hu, Hv.
  destruct (Q_ltb u 0 || Q_ltb v 0); [reflexivity|].
  now apply safe_divide_zero.
Qed.


Lemma band_value_rename_single (name n : string) (r : Raster) (p : Loc) :
  band_value (rename name [(n, r)]) name p = r p.
Proof. unfold band_value. cbn. now rewrite String.eqb_refl. Qed.

End FeatureProperties.

Section FeatureClaims.
Import Engine Imagery Features.

Local Open Scope string_scope.

Ltac index_band f :=
  unfold f, expression; rewrite band_value_rename_single.

Ltac zero_denominator H :=
  apply eval_divides_by_zero;
  cbn [divides_by_zero eval lift2 orb option_map];
  repeat match goal with
         | E : band_value _ _ _ = Some _ |- _ => rewrite E
         end;
  cbn [divides_by_zero eval lift2 orb option_map];
  apply Qeq_bool_iff in H; rewrite H;
  repeat rewrite orb_true_r; reflexivity.

(** C7.  At a pixel where the denominator of a derived index is zero the
    index is unset there (each index function is total and returns no
    other value): in particular ndvi with nir = 0 and red = 0. *)
Theorem zero_denominator_unset (image : Bands) (p : Loc) :
  (forall nir red,
      band_value image "nir" p = Some nir ->
      band_value image "red" p = Some red ->
      (nir + red == 0)%Q ->
      band_value (getNDVI image) "ndvi" p = None) /\
  (forall nir swir1,
      band_value image "nir" p = Some nir ->
      band_value image "swir1" p = Some swir1 ->
      (nir + swir1 == 0)%Q ->
      band_value (getNDWI image) "ndwi" p = None) /\
  (forall nir red,
      band_value image "nir" p = Some nir ->
      band_value image "red" p = Some red ->
      (0.5 + nir + red == 0)%Q ->
      band_value (getSAVI image) "savi" p = None) /\
  (forall blue green,
      band_value image "blue" p = Some blue ->
      band_value image "green" p = Some green ->
      (blue + green == 0)%Q ->
      band_value (getPRI image) "pri" p = None) /\
  (forall swir1,
      band_value image "swir1" p = Some swir1 ->
      (swir1 == 0)%Q ->
      band_value (getCAI image) "cai" p = None) /\
  (forall nir red blue,
      band_value image "nir" p = Some nir ->
      band_value image "red" p = Some red ->
      band_value image "blue" p = Some blue ->
      (nir + 6 * red - 7.5 * blue + 1 == 0)%Q ->
      band_value (getEVI image) "evi" p = None) /\
  (forall nir red,
      band_value image "nir" p = Some nir ->
      band_value image "red" p = Some red ->
      (nir + 2.4 * red + 1 == 0)%Q ->
      band_value (getEVI2 image) "evi2" p = None) /\
  (forall green,
      band_value image "green" p = Some green ->
      (green == 0)%Q ->
      band_value (getGCVI image) "gcvi" p = None).
Proof.
  repeat split.
  - intros nir red Hn Hr H. unfold getNDVI, normalizedDifference.
    rewrite band_value_rename_single, Hn, Hr.
    destruct (Q_ltb nir 0 || Q_ltb red 0); [reflexivity|].
    now apply safe_divide_zero.
  - intros nir swir1 Hn Hs H. unfold getNDWI, normalizedDifference.
    rewrite band_value_rename_single, Hn, Hs.
    destruct (Q_ltb nir 0 || Q_ltb swir1 0); [reflexivity|].
    now apply safe_divide_zero.
  - intros nir red Hn Hr H. index_band getSAVI. zero_denominator H.
  - intros blue green Hb Hg H. index_band getPRI. zero_denominator H.
  - intros swir1 Hs H. index_band getCAI. zero_denominator H.
  - intros nir red blue Hn Hr Hb H. index_band getEVI. zero_denominator H.
  - intros nir red Hn Hr H. index_band getEVI2. zero_denominator H.
  - intros green Hg H. index_band getGCVI. zero_denominator H.
Qed.

Lemma zero_denominator_unset_witness :
  band_value (getNDVI Scenario.dark_pixel) "ndvi" Scenario.origin = None.
Proof.
  apply (proj1 (zero_denominator_unset Scenario.dark_pixel Scenario.origin)
               0%Q 0%Q); reflexivity.
Defined.

Ltac index_value :=
  rewrite band_value_rename_single;
  cbn [eval lift2 option_map];
  repeat match goal with
         | E : band_value _ _ _ = Some _ |- _ => rewrite E
         end;
  cbn [eval lift2 option_map];
  try reflexivity;
  try (rewrite safe_divide_nonzero by assumption; reflexivity).

(** The other expression-based indices, at a pixel where the six raw
    bands are set and no denominator is zero. *)
Lemma expression_index_formulas (image : Bands) (p : Loc)
      (blue green red nir swir1 swir2 : Q) :
  band_value image "blue" p = Some blue ->
  band_value image "green" p = Some green ->
  band_value image "red" p = Some red ->
  band_value image "nir" p = Some nir ->
  band_value image "swir1" p = Some swir1 ->
  band_value image "swir2" p = Some swir2 ->
  (~ (0.5 + nir + red == 0)%Q ->
   band_value (getSAVI image) "savi" p
   = Some (1.5 * (nir - red) / (0.5 + nir + red))%Q) /\
  (~ (swir1 == 0)%Q ->
   band_value (getCAI image) "cai" p = Some (swir2 / swir1)%Q) /\
  (~ (nir + 6 * red - 7.5 * blue + 1 == 0)%Q ->
   band_value (getEVI image) "evi" p
   = Some (2.5 * ((nir - red) / (nir + 6 * red - 7.5 * blue + 1)))%Q) /\
  (~ (nir + 2.4 * red + 1 == 0)%Q ->
   band_value (getEVI2 image) "evi2" p
   = Some (2.5 * (nir - red) / (nir + 2.4 * red + 1))%Q) /\
  band_value (getHallCover image) "hallcover" p
  = Some (- red * 0.017 - nir * 0.007 - swir2 * 0.079 + 5.22)%Q /\
  band_value (getHallHeigth image) "hallheigth" p
  = Some (- red * 0.039 - nir * 0.011 - swir1 * 0.026 + 4.13)%Q /\
  (~ (green == 0)%Q ->
   band_value (getGCVI image) "gcvi" p = Some (nir / green - 1)%Q).
Proof.
  intros Hb Hg Hr Hn Hs1 Hs2.
  repeat split; try intros H.
  - unfold getSAVI, expression. index_value.
  - unfold getCAI, expression. index_value.
  - unfold getEVI, expression. index_value.
  - unfold getEVI2, expression. index_value.
  - unfold getHallCover, expression. index_value.
  - unfold getHallHeigth, expression. index_value.
  - unfold getGCVI, expression. index_value.
Qed.



End FeatureClaims.

(** ** The selection of the best tree count *)

Section SelectionProperties.
Import Engine Tuning.

Lemma In_insert_descending (c d : Z * Q) (sorted : list (Z * Q)) :
  In d (insert_descending c sorted) <-> d = c \/ In d sorted.
Proof.
  induction sorted as [|e rest IH]; cbn.
  - intuition congruence.
  - destruct (Q_leb (snd e) (snd c)); cbn.
    + intuition congruence.
    + rewrite IH. intuition congruence.
Qed.

Lemma In_sort_descending (d : Z * Q) (l : list (Z * Q)) :
  In d (sort_descending l) <-> In d l.
Proof.
  induction l as [|c rest IH]; cbn; [tauto|].
  rewrite In_insert_descending, IH. intuition congruence.
Qed.

Lemma sort_descending_Permutation (l : list (Z * Q)) :
  Permutation (sort_descending l) l.
Proof.
  assert (Hins : forall c s, Permutation (insert_descending c s) (c :: s)).
  { intros c s. induction s as [|e rest IH]; cbn; [reflexivity|].
    destruct (Q_leb (snd e) (snd c)); [reflexivity|].
    rewrite IH. apply perm_swap. }
  induction l as [|c rest IH]; cbn; [constructor|].
  rewrite Hins. now constructor.
Qed.

(** The first element of the sorted list is the first maximum of the
    input. *)
Lemma sort_descending_head (before after : list (Z * Q)) (c : Z * Q) :
  (forall d, In d before -> (snd d < snd c)%Q) ->
  (forall d, In d after -> (snd d <= snd c)%Q) ->
  exists rest, sort_descending (before ++ c :: after) = c :: rest.
Proof.
  intros Hafter0 Hafter. induction before as [|x before IH]; cbn.
  - destruct (sort_descending after) as [|d rest] eqn:E; cbn.
    + now exists [].
    + assert (Hd : In d after).
      { apply In_sort_descending. rewrite E. now left. }
      apply Hafter, Q_leb_le in Hd. rewrite Hd. now exists (d :: rest).
  - destruct IH as [rest IH].
    { intros d Hd. apply Hafter0. now right. }
    rewrite IH. cbn.
    assert (Hx : Q_leb (snd c) (snd x) = false).
    { apply negb_true_iff. rewrite <- Q_ltb_antisym. apply Q_ltb_lt.
      apply Hafter0. now left. }
    rewrite Hx. now exists (insert_descending x rest).
Qed.

Lemma evaluate_app (l1 l2 : list Candidate) :
  evaluate (l1 ++ l2) =
  match evaluate l1, evaluate l2 with
  | Some e1, Some e2 => Some (e1 ++ e2)
  | _, _ => None
  end.
Proof.
  induction l1 as [|c l1 IH]; cbn.
  - now destruct (evaluate l2).
  - destruct (accuracy c) as [a|]; [|reflexivity].
    rewrite IH. destruct (evaluate l1), (evaluate l2); reflexivity.
Qed.

Lemma evaluate_all (P : Q -> Prop) (l : list Candidate) :
  (forall d, In d l -> exists x, accuracy d = Some x /\ P x) ->
  exists e, evaluate l = Some e /\ forall d, In d e -> P (snd d).
Proof.
  induction l as [|c l IH]; cbn; intros H.
  - exists []. split; [reflexivity|]. intros d [].
  - destruct (H c (or_introl eq_refl)) as [x [Hx HP]].
    destruct IH as [e [He HPe]]; [intros d Hd; apply H; now right|].
    rewrite Hx, He. exists ((trees c, x) :: e). split; [reflexivity|].
    intros d [<- | Hd]; [exact HP | now apply HPe].
Qed.

End SelectionProperties.

Section SelectionClaims.
Import Engine Tuning.

(** C2.  The selector picks a candidate of maximum accuracy, and among
    candidates sharing the maximum the one that comes first in the list;
    for [(50, 0.80), (100, 0.85), (150, 0.85)] it picks 100. *)
Theorem selector_first_maximum :
  (forall (before after : list Candidate) (c : Candidate) (a : Q),
      accuracy c = Some a ->
      (forall d, In d before ->
                 exists x, accuracy d = Some x /\ (x < a)%Q) ->
      (forall d, In d after ->
                 exists x, accuracy d = Some x /\ (x <= a)%Q) ->
      bestNumberOfTrees (before ++ c :: after) = Some (trees c)) /\
  bestNumberOfTrees Scenario.tied_candidates = Some 100.
Proof.
  split; [|reflexivity].
  intros before after c a Hc Hbefore Hafter.
  destruct (evaluate_all (fun x => x < a)%Q before Hbefore)
    as [eb [Heb Hb]].
  destruct (evaluate_all (fun x => x <= a)%Q after Hafter)
    as [ea [Hea Ha]].
  unfold bestNumberOfTrees.
  rewrite evaluate_app, Heb. cbn [evaluate]. rewrite Hc, Hea.
  destruct (sort_descending_head eb ea (trees c, a) Hb Ha) as [rest ->].
  reflexivity.
Qed.

Lemma selector_first_maximum_witness :
  bestNumberOfTrees
    ([{| trees := 50; accuracy := Some 0.80%Q |}]
     ++ {| trees := 100; accuracy := Some 0.85%Q |}
     :: [{| trees := 150; accuracy := Some 0.85%Q |}]) = Some 100.
Proof.
  apply (proj1 selector_first_maximum
               [{| trees := 50; accuracy := Some 0.80%Q |}]
               [{| trees := 150; accuracy := Some 0.85%Q |}]
               {| trees := 100; accuracy := Some 0.85%Q |} 0.85%Q eq_refl).
  - intros d [<- | []]. exists 0.80%Q. split; reflexivity.
  - intros d [<- | []]. exists 0.85%Q. split; [reflexivity | discriminate].
Defined.

End SelectionClaims.

(** ** The sweep over the tree counts *)

Section SweepClaims.
Import Features Tuning.

Variable Classifier : Type.
Variable smileRandomForest_train :
  Z -> list Example -> list string -> option Classifier.
Variable classify_feature : Classifier -> Example -> Z.

Lemma tune_scored (trainingData testingData : list Example) (n : Z) :
  tune Classifier smileRandomForest_train classify_feature
       trainingData testingData n
  = {| trees := n;
       accuracy := scored Classifier smileRandomForest_train
                          classify_feature trainingData testingData n |}.
Proof.
  unfold tune, scored.
  now destruct (smileRandomForest_train n trainingData allPredictors).
Qed.

(** C4.  For every list of tree counts the sweep yields exactly one
    candidate per value, in the order of the list, and each candidate
    carries the accuracy of a classifier trained with that tree count on
    the training data and scored on the testing data. *)
Theorem sweep_one_candidate_per_value
        (trainingData testingData : list Example) (numTrees : list Z) :
  map trees (results Classifier smileRandomForest_train classify_feature
                     trainingData testingData numTrees) = numTrees /\
  List.length (results Classifier smileRandomForest_train classify_feature
                       trainingData testingData numTrees)
  = List.length numTrees /\
  forall i n,
    nth_error numTrees i = Some n ->
    nth_error (results Classifier smileRandomForest_train classify_feature
                       trainingData testingData numTrees) i
    = Some {| trees := n;
              accuracy := scored Classifier smileRandomForest_train
                                 classify_feature
                                 trainingData testingData n |}.
Proof.
  unfold results. split; [|split].
  - rewrite map_map. cbn. apply map_id.
  - apply length_map.
  - intros i n H. rewrite nth_error_map, H. cbn [option_map].
    now rewrite tune_scored.
Qed.

(** C3, as the script has it.  The sweep makes no test for an empty
    training or testing set: in that case too it yields one candidate
    per tree count, in order, each with the deferred accuracy the engine
    gives for the classifier trained on that training set. *)
Theorem sweep_ignores_empty_sets
        (trainingData testingData : list Example) (numTrees : list Z) :
  trainingData = [] \/ testingData = [] ->
  results Classifier smileRandomForest_train classify_feature
          trainingData testingData numTrees
  = map (fun n => {| trees := n;
                     accuracy := scored Classifier smileRandomForest_train
                                        classify_feature
                                        trainingData testingData n |})
        numTrees.
Proof.
  intros _. unfold results. apply map_ext. intros n. apply tune_scored.
Qed.

End SweepClaims.

Section SweepRuns.
Import Features Tuning Scenario.

Lemma sweep_one_candidate_per_value_witness :
  nth_error (results Z first_class_train first_class_classify
                     [forest_example; urban_example]
                     [forest_example; urban_example] numTreesList) 1
  = Some {| trees := 100;
            accuracy := scored Z first_class_train first_class_classify
                               [forest_example; urban_example]
                               [forest_example; urban_example] 100 |}.
Proof.
  apply (proj2 (proj2 (sweep_one_candidate_per_value
                         Z first_class_train first_class_classify
                         [forest_example; urban_example]
                         [forest_example; urban_example] numTreesList))).
  reflexivity.
Defined.

Lemma sweep_ignores_empty_sets_witness :
  results Z first_class_train first_class_classify
          [] [forest_example] numTreesList
  = map (fun n => {| trees := n; accuracy := None |}) numTreesList.
Proof.
  apply (sweep_ignores_empty_sets Z first_class_train first_class_classify
                                  [] [forest_example] numTreesList).
  now left.
Defined.

(** C3, the claim against the code: with both sets empty the sweep still
    returns a candidate for each of the six tree counts. *)
Lemma empty_sets_still_swept :
  results Z first_class_train first_class_classify [] [] numTreesList
  = [{| trees := 50; accuracy := None |};
     {| trees := 100; accuracy := None |};
     {| trees := 150; accuracy := None |};
     {| trees := 200; accuracy := None |};
     {| trees := 250; accuracy := None |};
     {| trees := 300; accuracy := None |}] /\
  ~ (forall trainingData testingData : list Example,
        trainingData = [] \/ testingData = [] ->
        results Z first_class_train first_class_classify
                trainingData testingData numTreesList = []).
Proof.
  split; [reflexivity|].
  intros H. specialize (H [] [] (or_introl eq_refl)). discriminate H.
Qed.

End SweepRuns.

(** ** The predictor image as a whole *)

Section PredictorProperties.
Import Imagery Features.

Local Open Scope string_scope.

(** The raw predictors are the composite's reflectance bands under
    their new names. *)
Lemma predictorImage_raw_bands (catalogue : list Image) (p : Loc) :
  band_value (predictorImage catalogue) "blue" p
  = band_value (mosaic catalogue) "SR_B2" p /\
  band_value (predictorImage catalogue) "green" p
  = band_value (mosaic catalogue) "SR_B3" p /\
  band_value (predictorImage catalogue) "red" p
  = band_value (mosaic catalogue) "SR_B4" p /\
  band_value (predictorImage catalogue) "nir" p
  = band_value (mosaic catalogue) "SR_B5" p /\
  band_value (predictorImage catalogue) "swir1" p
  = band_value (mosaic catalogue) "SR_B6" p /\
  band_value (predictorImage catalogue) "swir2" p
  = band_value (mosaic catalogue) "SR_B7" p.
Proof.
  unfold predictorImage, mosaicWithIndices, mosaicRenamed.
  generalize (mosaic catalogue). intros image.
  repeat split; reflexivity.
Qed.

(** The derived predictors are the index functions applied to the
    renamed composite. *)
Lemma predictorImage_index_bands (catalogue : list Image) (p : Loc) :
  let image := mosaicRenamed catalogue in
  band_value (predictorImage catalogue) "ndvi" p
  = band_value (getNDVI image) "ndvi" p /\
  band_value (predictorImage catalogue) "ndwi" p
  = band_value (getNDWI image) "ndwi" p /\
  band_value (predictorImage catalogue) "savi" p
  = band_value (getSAVI image) "savi" p /\
  band_value (predictorImage catalogue) "pri" p
  = band_value (getPRI image) "pri" p /\
  band_value (predictorImage catalogue) "cai" p
  = band_value (getCAI image) "cai" p /\
  band_value (predictorImage catalogue) "evi" p
  = band_value (getEVI image) "evi" p /\
  band_value (predictorImage catalogue) "evi2" p
  = band_value (getEVI2 image) "evi2" p /\
  band_value (predictorImage catalogue) "hallcover" p
  = band_value (getHallCover image) "hallcover" p /\
  band_value (predictorImage catalogue) "hallheigth" p
  = band_value (getHallHeigth image) "hallheigth" p /\
  band_value (predictorImage catalogue) "gcvi" p
  = band_value (getGCVI image) "gcvi" p.
Proof.
  unfold predictorImage, mosaicWithIndices, mosaicRenamed.
  generalize (mosaic catalogue). intros image.
  repeat split; reflexivity.
Qed.

End PredictorProperties.

(** * Further properties of the script *)

(** ** Labelled points *)

Section LabelExtras.
Import Engine Labels.

(** Every surviving point comes from a row of the table that has both
    coordinates; its geometry is built from them, its source row is kept
    and its class is the one the priority chain gives that row.  A row
    that lacks lon or lat therefore gives no point. *)
Theorem surviving_points_have_coordinates
        (table : list LabelRow) (p : Point) :
  In p (finalPoints table) ->
  In (feature p) table /\
  (exists lo la, lon (feature p) = Some lo /\ lat (feature p) = Some la /\
                 geometry p = (Number_parse (Some lo), Number_parse (Some la))) /\
  target_class p = classNumber (feature p).
Proof.
  intros H. apply In_finalPoints in H. destruct H as [H _].
  apply In_points in H. destruct H as [r [Hin [Hnn ->]]]. cbn.
  split; [exact Hin|]. split; [|reflexivity].
  unfold notNull_lon_lat in Hnn.
  destruct (lon r) as [lo|]; [|discriminate].
  destruct (lat r) as [la|]; [|discriminate].
  now exists lo, la.
Qed.

Lemma surviving_points_have_coordinates_witness :
  In (feature (label_feature Scenario.forest_row))
     (Runs.unlocated_row :: Scenario.table) /\
  (exists lo la,
      lon (feature (label_feature Scenario.forest_row)) = Some lo /\
      lat (feature (label_feature Scenario.forest_row)) = Some la /\
      geometry (label_feature Scenario.forest_row)
      = (Number_parse (Some lo), Number_parse (Some la))) /\
  target_class (label_feature Scenario.forest_row)
  = classNumber (feature (label_feature Scenario.forest_row)).
Proof.
  apply (surviving_points_have_coordinates
           (Runs.unlocated_row :: Scenario.table)
           (label_feature Scenario.forest_row)).
  cbn. tauto.
Defined.

(** The surviving points are the rows that have both coordinates and a
    flag equal to 1, each once and in the order of the table. *)
Theorem finalPoints_in_table_order (table : list LabelRow) :
  map feature (finalPoints table)
  = filter (fun r => notNull_lon_lat r
                     && match first_flag_index (spec_priority_order r) with
                        | Some _ => true
                        | None => false
                        end)
           table.
Proof.
  unfold finalPoints, points.
  induction table as [|r table IH]; cbn [filter map]; [reflexivity|].
  destruct (notNull_lon_lat r); cbn [filter map andb]; [|exact IH].
  unfold Filter_lt at 1. cbn [target_class label_feature].
  pose proof (classNumber_first_flag r) as Hc.
  destruct (first_flag_index (spec_priority_order r)) as [i|] eqn:E.
  - apply first_flag_index_bound in E. cbn in E.
    assert ((classNumber r <? 99) = true) as -> by (apply Z.ltb_lt; lia).
    cbn [map]. now rewrite IH.
  - rewrite Hc. cbn. exact IH.
Qed.

(** Attaching the random column loses and duplicates nothing, and the
    sizes of the two partitions add up to the number of surviving
    points. *)
Theorem split_keeps_every_point (draw : nat -> Q) (table : list LabelRow) :
  map point (finalPoints_random draw table) = finalPoints table /\
  (List.length (trainingSet draw table)
   + List.length (testingSet draw table))%nat
  = List.length (finalPoints table).
Proof.
  split.
  - apply randomColumn_from_points.
  - unfold trainingSet, testingSet.
    rewrite <- length_app.
    rewrite (Permutation_length
               (filter_complement_Permutation _ _ _
                  (fun sp => Filter_gt_not_lte (random sp) 0.8))).
    unfold finalPoints_random, randomColumn.
    rewrite <- (randomColumn_from_points draw (finalPoints table) 0) at 2.
    now rewrite length_map.
Qed.

End LabelExtras.

(** ** Scenes: masking, quality band, catalogue filter *)

Section ImageryExtras.
Import Imagery.

Local Open Scope string_scope.

Lemma names_overwrite_present (name : string) (r : Raster) (bs : Bands) :
  In name (map fst bs) -> map fst (overwrite_band name r bs) = map fst bs.
Proof.
  induction bs as [|[n r'] bs IH]; cbn; [tauto|].
  intros H. destruct (String.eqb_spec n name) as [-> | Hne]; cbn.
  - reflexivity.
  - f_equal. apply IH. destruct H; [contradiction | assumption].
Qed.

Lemma names_fold_overwrite (src dst : Bands) :
  (forall n, In n (map fst src) -> In n (map fst dst)) ->
  map fst (fold_left (fun acc b => overwrite_band (fst b) (snd b) acc)
                     src dst) = map fst dst.
Proof.
  revert dst. induction src as [|[m r] src IH]; intros dst H; cbn;
    [reflexivity|].
  assert (Hm : map fst (overwrite_band m r dst) = map fst dst).
  { apply names_overwrite_present. apply H. now left. }
  rewrite IH; [exact Hm|].
  intros n Hn. rewrite Hm. apply H. now right.
Qed.

Lemma has_band_names (name : string) (bs : Bands) :
  has_band name bs = true <-> In name (map fst bs).
Proof.
  unfold has_band. rewrite existsb_exists, in_map_iff. split.
  - intros [x [Hin Hx]]. apply String.eqb_eq in Hx. now exists x.
  - intros [x [Hx Hin]]. exists x. split; [assumption|].
    now apply String.eqb_eq.
Qed.

Lemma lookup_band_app_single (name m : string) (r : Raster) (bs : Bands) :
  lookup_band name (bs ++ [(m, r)])%list =
  match lookup_band name bs with
  | Some x => Some x
  | None => if String.eqb m name then Some r else None
  end.
Proof.
  induction bs as [|[n r'] bs IH]; cbn; [reflexivity|].
  destruct (String.eqb n name); [reflexivity | exact IH].
Qed.

Lemma names_maskL8sr (image : Image) :
  map fst (bands (maskL8sr image)) = map fst (bands image).
Proof.
  unfold maskL8sr.
  cbn [bands copyProperties_CLOUD_COVER addBands_overwrite with_bands].
  assert (Hm : forall mask, map fst (bands (updateMask image mask))
                            = map fst (bands image)).
  { intros mask. cbn. rewrite map_map. reflexivity. }
  rewrite names_fold_overwrite; [apply Hm|].
  intros n Hn. rewrite Hm.
  unfold add, multiply in Hn. rewrite !names_pixelwise in Hn.
  unfold select_starting in Hn.
  apply in_map_iff in Hn. destruct Hn as [x [<- Hx]].
  apply filter_In in Hx. apply in_map. tauto.
Qed.

(** [maskL8sr] adds, drops and reorders no band, and keeps the scene's
    tile, date and cloud cover. *)
Theorem maskL8sr_keeps_band_list (image : Image) :
  map fst (bands (maskL8sr image)) = map fst (bands image) /\
  WRS_PATH (maskL8sr image) = WRS_PATH image /\
  WRS_ROW (maskL8sr image) = WRS_ROW image /\
  time_start (maskL8sr image) = time_start image /\
  CLOUD_COVER (maskL8sr image) = CLOUD_COVER image.
Proof.
  split; [apply names_maskL8sr | repeat split].
Qed.

(** A band that is not a reflectance band is masked by [maskL8sr] at a
    pixel where bit 1, 3 or 4 of the quality value is set or where the
    quality band itself has no value, and keeps its value elsewhere. *)
Theorem maskL8sr_masks_other_bands (image : Image) (name : string) (p : Loc) :
  String.prefix "SR_B" name = false ->
  (forall qa : Z,
      band_value (bands image) "QA_PIXEL" p = Some (inject_Z qa) ->
      band_value (bands (maskL8sr image)) name p
      = if spec_masked qa then None else band_value (bands image) name p) /\
  (band_value (bands image) "QA_PIXEL" p = None ->
   band_value (bands (maskL8sr image)) name p = None).
Proof.
  intros Hpre. split.
  - intros qa Hqa. rewrite (maskL8sr_other_band image name p Hpre), Hqa.
    rewrite Qfloor_Z.
    destruct (band_value (bands image) name p);
      now destruct (spec_masked qa).
  - intros Hqa. rewrite (maskL8sr_other_band image name p Hpre), Hqa.
    now destruct (band_value (bands image) name p).
Qed.

Lemma maskL8sr_masks_other_bands_witness :
  band_value (bands (maskL8sr Scenario.cloudy_scene)) "QA_PIXEL"
             Scenario.origin
  = if spec_masked 22280 then None
    else band_value (bands Scenario.cloudy_scene) "QA_PIXEL" Scenario.origin.
Proof.
  apply (proj1 (maskL8sr_masks_other_bands Scenario.cloudy_scene "QA_PIXEL"
                  Scenario.origin eq_refl) 22280).
  reflexivity.
Defined.

(** A reflectance band of a scene with distinct band names is rescaled
    by [maskL8sr] wherever the scene has a value, whatever the quality
    bits; a 16-bit value ends between -0.2 and 1.6022125. *)
Theorem maskL8sr_rescales_reflectance
        (image : Image) (name : string) (p : Loc) (v : Q) :
  NoDup (map fst (bands image)) ->
  String.prefix "SR_B" name = true ->
  band_value (bands image) name p = Some v ->
  (0 <= v <= 65535)%Q ->
  exists w, band_value (bands (maskL8sr image)) name p = Some w /\
            (w == v * 0.0000275 - 0.2)%Q /\
            (-0.2 <= w <= 1.6022125)%Q.
Proof.
  intros Hnd Hpre Hv [H0 H1].
  rewrite (maskL8sr_optical_band image name p Hnd Hpre), Hv. cbn.
  eexists. split; [reflexivity|]. split; [lra|]. split; lra.
Qed.

Lemma maskL8sr_rescales_reflectance_witness :
  exists w, band_value (bands (maskL8sr Scenario.cloudy_scene)) "SR_B4"
                       Scenario.origin = Some w /\
            (w == 30000 * 0.0000275 - 0.2)%Q /\
            (-0.2 <= w <= 1.6022125)%Q.
Proof.
  apply (maskL8sr_rescales_reflectance Scenario.cloudy_scene "SR_B4"
           Scenario.origin 30000).
  - cbn. repeat constructor; cbn; intuition discriminate.
  - reflexivity.
  - reflexivity.
  - split; discriminate.
Defined.

End ImageryExtras.

Section CatalogueExtras.
Import Imagery.

Local Open Scope string_scope.

(** After masking, the quality band of a scene (one that has no band of
    that name yet) is 100 - CLOUD_COVER, rounded to single precision, at
    every pixel, also where the quality bits mask the scene; adding it
    changes no other band. *)
Theorem quality_band_everywhere (image : Image) :
  has_band "quality_score" (bands image) = false ->
  (forall p, band_value (bands (addQualityBand (maskL8sr image)))
                        "quality_score" p
             = Some (toFloat (100 - CLOUD_COVER image))%Q) /\
  (forall name p,
      name <> "quality_score" ->
      band_value (bands (addQualityBand (maskL8sr image))) name p
      = band_value (bands (maskL8sr image)) name p).
Proof.
  intros Hno.
  assert (Hno' : has_band "quality_score" (bands (maskL8sr image)) = false).
  { destruct (has_band "quality_score" (bands (maskL8sr image))) eqn:E;
      [|reflexivity].
    apply has_band_names in E.
    rewrite names_maskL8sr in E.
    apply has_band_names in E. congruence. }
  assert (Hbands : bands (addQualityBand (maskL8sr image))
                   = (bands (maskL8sr image)
                      ++ [("quality_score",
                           fun _ : Loc =>
                             Some (toFloat (100 - CLOUD_COVER image))%Q)])%list).
  { unfold addQualityBand. cbn [bands with_bands].
    unfold addBands, rename. cbn [map fold_left snd].
    unfold append_band. cbn [fst snd]. rewrite Hno'. reflexivity. }
  split.
  - intros p. unfold band_value. rewrite Hbands, lookup_band_app_single.
    rewrite lookup_band_not_in; [reflexivity|].
    intros Hin. apply has_band_names in Hin. congruence.
  - intros name p Hne. unfold band_value.
    rewrite Hbands, lookup_band_app_single.
    destruct (lookup_band name (bands (maskL8sr image))); [reflexivity|].
    apply String.eqb_neq in Hne. rewrite String.eqb_sym in Hne.
    now rewrite Hne.
Qed.

Lemma quality_band_everywhere_witness :
  exists v, band_value (bands (addQualityBand (maskL8sr Runs.hazy_scene)))
                       "quality_score" Scenario.origin = Some v /\
            (v == 13094093 # 131072)%Q.
Proof.
  exists (toFloat (100 - CLOUD_COVER Runs.hazy_scene))%Q. split.
  - apply (proj1 (quality_band_everywhere Runs.hazy_scene eq_refl)).
  - reflexivity.
Defined.

Lemma pathRowFilters_In (image : Image) :
  pathRowFilters image = true <->
  In (WRS_PATH image, WRS_ROW image) pathRowList.
Proof.
  unfold pathRowFilters. rewrite existsb_exists. split.
  - intros [[a c] [Hin H]]. cbn in H. apply andb_true_iff in H.
    destruct H as [Ha Hc]. apply Z.eqb_eq in Ha, Hc. now subst.
  - intros H. exists (WRS_PATH image, WRS_ROW image). split; [exact H|].
    cbn. now rewrite !Z.eqb_refl.
Qed.

(** A scene with a calendar date passes the two catalogue filters exactly
    when its tile is in the list and it was acquired in December 2018. *)
Theorem catalogue_filter_window (catalogue : list Image) (s : Image) :
  1 <= dmonth (time_start s) <= 12 -> 1 <= dday (time_start s) ->
  In s (filterDate startDate endDate (filter pathRowFilters catalogue)) <->
  In s catalogue /\ In (WRS_PATH s, WRS_ROW s) pathRowList /\
  dyear (time_start s) = 2018 /\ dmonth (time_start s) = 12.
Proof.
  intros Hm Hd. unfold filterDate. rewrite !filter_In, pathRowFilters_In.
  assert (Hdate :
            negb (Date_ltb (time_start s) startDate)
            && Date_ltb (time_start s) endDate = true <->
            dyear (time_start s) = 2018 /\ dmonth (time_start s) = 12).
  { unfold Date_ltb, startDate, endDate, advance_1_month, Date_fromYMD,
      year, month. cbn [dyear dmonth dday Z.eqb].
    destruct (time_start s) as [y m d]. cbn [dyear dmonth dday] in *.
    change (2018 + 1) with 2019.
    destruct (Z.ltb_spec y 2018), (Z.eqb_spec y 2018), (Z.ltb_spec m 12),
      (Z.eqb_spec m 12), (Z.ltb_spec d 1), (Z.ltb_spec y 2019),
      (Z.eqb_spec y 2019), (Z.ltb_spec m 1), (Z.eqb_spec m 1);
      cbn; split; intros; try discriminate; try lia; try reflexivity. }
  rewrite Hdate. tauto.
Qed.

Lemma catalogue_filter_window_witness :
  In Scenario.clear_scene
     (filterDate startDate endDate
        (filter pathRowFilters
           [Runs.january_scene; Runs.far_scene; Scenario.clear_scene])).
Proof.
  apply (proj2 (catalogue_filter_window
                  [Runs.january_scene; Runs.far_scene; Scenario.clear_scene]
                  Scenario.clear_scene ltac:(cbn; lia) ltac:(cbn; lia))).
  cbn. intuition.
Defined.

End CatalogueExtras.

(** ** Derived indices: when they are set, and their range *)

Section FeatureExtras.
Import Engine Imagery Features Analysis.

Local Open Scope string_scope.

Lemma eval_masked_reference (env : string -> option Q) (e : expr)
      (name : string) :
  In name (references e) -> env name = None -> eval env e = None.
Proof.
  intros Hin Hn.
  induction e as [n | c | e1 IH1 | e1 IH1 e2 IH2 | e1 IH1 e2 IH2
                  | e1 IH1 e2 IH2 | e1 IH1 e2 IH2]; cbn in Hin |- *.
  - destruct Hin as [-> | []]. exact Hn.
  - destruct Hin.
  - now rewrite IH1.
  - apply in_app_or in Hin. destruct Hin as [H | H].
    + now rewrite IH1.
    + rewrite IH2 by exact H. apply lift2_None_r.
  - apply in_app_or in Hin. destruct Hin as [H | H].
    + now rewrite IH1.
    + rewrite IH2 by exact H. apply lift2_None_r.
  - apply in_app_or in Hin. destruct Hin as [H | H].
    + now rewrite IH1.
    + rewrite IH2 by exact H. apply lift2_None_r.
  - apply in_app_or in Hin. destruct Hin as [H | H].
    + now rewrite IH1.
    + rewrite IH2 by exact H. now destruct (eval env e1).
Qed.

Lemma lift2_None (f : Q -> Q -> Q) (x y : option Q) :
  lift2 f x y = None -> x = None \/ y = None.
Proof. destruct x, y; cbn; intros H; try discriminate; auto. Qed.

(** An expression has no value at a pixel exactly when a band it refers
    to is masked there or one of its divisions has a zero denominator. *)
Theorem expression_unset_iff (env : string -> option Q) (e : expr) :
  eval env e = None <->
  (exists name, In name (references e) /\ env name = None) \/
  divides_by_zero env e = true.
Proof.
  split.
  - induction e as [n | c | e1 IH1 | e1 IH1 e2 IH2 | e1 IH1 e2 IH2
                    | e1 IH1 e2 IH2 | e1 IH1 e2 IH2]; cbn; intros H.
    + left. exists n. auto.
    + discriminate.
    + destruct (eval env e1); [discriminate|]. now apply IH1.
    + apply lift2_None in H. destruct H as [H | H];
        [apply IH1 in H | apply IH2 in H];
        (destruct H as [[n [Hin Hn]] | H];
         [left; exists n; split; [apply in_or_app; auto | exact Hn]
         | right; rewrite H; auto using orb_true_r]).
    + apply lift2_None in H. destruct H as [H | H];
        [apply IH1 in H | apply IH2 in H];
        (destruct H as [[n [Hin Hn]] | H];
         [left; exists n; split; [apply in_or_app; auto | exact Hn]
         | right; rewrite H; auto using orb_true_r]).
    + apply lift2_None in H. destruct H as [H | H];
        [apply IH1 in H | apply IH2 in H];
        (destruct H as [[n [Hin Hn]] | H];
         [left; exists n; split; [apply in_or_app; auto | exact Hn]
         | right; rewrite H; auto using orb_true_r]).
    + destruct (eval env e1) as [u|] eqn:E1.
      * destruct (eval env e2) as [v|] eqn:E2.
        -- right. unfold safe_divide in H.
           destruct (Qeq_bool v 0); [|discriminate].
           apply orb_true_r.
        -- destruct (IH2 eq_refl) as [[n [Hin Hn]] | H2].
           ++ left. exists n. split; [apply in_or_app; auto | exact Hn].
           ++ right. rewrite H2. now rewrite orb_true_r.
      * destruct (IH1 eq_refl) as [[n [Hin Hn]] | H1].
        -- left. exists n. split; [apply in_or_app; auto | exact Hn].
        -- right. now rewrite H1.
  - intros [[n [Hin Hn]] | H].
    + now apply (eval_masked_reference env e n).
    + now apply eval_divides_by_zero.
Qed.

Ltac masked_index f n :=
  unfold f, expression; rewrite band_value_rename_single;
  apply (eval_masked_reference _ _ n); [cbn; tauto | assumption].

Ltac masked_nd f :=
  unfold f, normalizedDifference; rewrite band_value_rename_single;
  repeat match goal with
         | E : band_value _ _ _ = None |- _ => rewrite E
         end;
  try reflexivity;
  match goal with
  | |- match ?x with _ => _ end = None => now destruct x
  end.

(** A masked raw band masks every index computed from it. *)
Theorem masked_band_masks_indices (image : Bands) (p : Loc) :
  (band_value image "blue" p = None ->
   band_value (getPRI image) "pri" p = None /\
   band_value (getEVI image) "evi" p = None) /\
  (band_value image "green" p = None ->
   band_value (getPRI image) "pri" p = None /\
   band_value (getGCVI image) "gcvi" p = None) /\
  (band_value image "red" p = None ->
   band_value (getNDVI image) "ndvi" p = None /\
   band_value (getSAVI image) "savi" p = None /\
   band_value (getEVI image) "evi" p = None /\
   band_value (getEVI2 image) "evi2" p = None /\
   band_value (getHallCover image) "hallcover" p = None /\
   band_value (getHallHeigth image) "hallheigth" p = None) /\
  (band_value image "nir" p = None ->
   band_value (getNDVI image) "ndvi" p = None /\
   band_value (getNDWI image) "ndwi" p = None /\
   band_value (getSAVI image) "savi" p = None /\
   band_value (getEVI image) "evi" p = None /\
   band_value (getEVI2 image) "evi2" p = None /\
   band_value (getHallCover image) "hallcover" p = None /\
   band_value (getHallHeigth image) "hallheigth" p = None /\
   band_value (getGCVI image) "gcvi" p = None) /\
  (band_value image "swir1" p = None ->
   band_value (getNDWI image) "ndwi" p = None /\
   band_value (getCAI image) "cai" p = None /\
   band_value (getHallHeigth image) "hallheigth" p = None) /\
  (band_value image "swir2" p = None ->
   band_value (getCAI image) "cai" p = None /\
   band_value (getHallCover image) "hallcover" p = None).
Proof.
  repeat split.
  - masked_index getPRI "blue".
  - masked_index getEVI "blue".
  - masked_index getPRI "green".
  - masked_index getGCVI "green".
  - masked_nd getNDVI.
  - masked_index getSAVI "red".
  - masked_index getEVI "red".
  - masked_index getEVI2 "red".
  - masked_index getHallCover "red".
  - masked_index getHallHeigth "red".
  - masked_nd getNDVI.
  - masked_nd getNDWI.
  - masked_index getSAVI "nir".
  - masked_index getEVI "nir".
  - masked_index getEVI2 "nir".
  - masked_index getHallCover "nir".
  - masked_index getHallHeigth "nir".
  - masked_index getGCVI "nir".
  - masked_nd getNDWI.
  - masked_index getCAI "swir1".
  - masked_index getHallHeigth "swir1".
  - masked_index getCAI "swir2".
  - masked_index getHallCover "swir2".
Qed.

Lemma masked_band_masks_indices_witness :
  band_value (getNDVI Runs.red_masked_pixel) "ndvi" Scenario.origin = None /\
  band_value (getSAVI Runs.red_masked_pixel) "savi" Scenario.origin = None.
Proof.
  destruct (proj1 (proj2 (proj2 (masked_band_masks_indices
                                   Runs.red_masked_pixel Scenario.origin)))
                  eq_refl) as [H1 [H2 _]].
  exact (conj H1 H2).
Defined.

End FeatureExtras.

Section IndexRange.
Import Engine Imagery Features.

Local Open Scope string_scope.

Lemma normalized_difference_bounds (u v : Q) :
  (0 <= u)%Q -> (0 <= v)%Q -> ~ (u + v == 0)%Q ->
  (-1 <= (u - v) / (u + v) <= 1)%Q.
Proof.
  intros Hu Hv Hne.
  assert (Hpos : (0 < u + v)%Q).
  { destruct (Qlt_le_dec 0 (u + v)) as [H | H]; [exact H|].
    exfalso. apply Hne. lra. }
  split.
  - apply Qle_shift_div_l; [exact Hpos | lra].
  - apply Qle_shift_div_r; [exact Hpos | lra].
Qed.

Lemma normalizedDifference_range (image : Bands) (x y : string) (p : Loc)
      (w : Q) :
  band_value (normalizedDifference x y image) "nd" p = Some w ->
  (-1 <= w <= 1)%Q.
Proof.
  unfold normalizedDifference, band_value at 1. cbn.
  destruct (band_value image x p) as [u|]; [|discriminate].
  destruct (band_value image y p) as [v|]; [|discriminate].
  destruct (Q_ltb u 0) eqn:Eu; [discriminate|].
  destruct (Q_ltb v 0) eqn:Ev; [discriminate|]. cbn.
  unfold safe_divide. destruct (Qeq_bool (u + v) 0) eqn:E; [discriminate|].
  intros [= <-].
  apply normalized_difference_bounds.
  - apply Q_leb_le. rewrite Q_ltb_antisym in Eu.
    now apply negb_false_iff in Eu.
  - apply Q_leb_le. rewrite Q_ltb_antisym in Ev.
    now apply negb_false_iff in Ev.
  - intros H. apply Qeq_bool_iff in H. congruence.
Qed.

(** Wherever ndvi or ndwi has a value, the value lies between -1 and 1. *)
Theorem normalized_indices_in_range (image : Bands) (p : Loc) (w : Q) :
  (band_value (getNDVI image) "ndvi" p = Some w -> (-1 <= w <= 1)%Q) /\
  (band_value (getNDWI image) "ndwi" p = Some w -> (-1 <= w <= 1)%Q).
Proof.
  split; intros H.
  - apply (normalizedDifference_range image "nir" "red" p).
    unfold getNDVI, normalizedDifference in H.
    rewrite band_value_rename_single in H.
    unfold normalizedDifference, band_value at 1. cbn. exact H.
  - apply (normalizedDifference_range image "nir" "swir1" p).
    unfold getNDWI, normalizedDifference in H.
    rewrite band_value_rename_single in H.
    unfold normalizedDifference, band_value at 1. cbn. exact H.
Qed.

Lemma normalized_indices_in_range_witness :
  exists w, band_value (getNDVI Scenario.example_pixel) "ndvi"
                       Scenario.origin = Some w /\ (-1 <= w <= 1)%Q.
Proof.
  exists ((0.4 - 0.2) / (0.4 + 0.2))%Q. split; [reflexivity|].
  apply (proj1 (normalized_indices_in_range Scenario.example_pixel
                  Scenario.origin ((0.4 - 0.2) / (0.4 + 0.2))%Q)).
  reflexivity.
Defined.

Lemma expression_index_formulas_witness :
  band_value (getHallCover Scenario.example_pixel) "hallcover"
             Scenario.origin
  = Some (- 0.2 * 0.017 - 0.4 * 0.007 - 0.15 * 0.079 + 5.22)%Q /\
  band_value (getCAI Scenario.example_pixel) "cai" Scenario.origin
  = Some (0.15 / 0.25)%Q.
Proof.
  destruct (expression_index_formulas Scenario.example_pixel Scenario.origin
              0.1 0.3 0.2 0.4 0.25 0.15
              eq_refl eq_refl eq_refl eq_refl eq_refl eq_refl)
    as [_ [Hcai [_ [_ [Hcover _]]]]].
  split; [exact Hcover | apply Hcai; discriminate].
Defined.

End IndexRange.

(** ** Selection: what is selected, and when nothing is *)

Section SelectionExtras.
Import Engine Tuning.

Lemma evaluate_In (results : list Candidate) (l : list (Z * Q)) :
  evaluate results = Some l ->
  (forall d, In d l ->
             exists c, In c results /\ trees c = fst d /\
                       accuracy c = Some (snd d)) /\
  (forall c, In c results ->
             exists d, In d l /\ trees c = fst d /\
                       accuracy c = Some (snd d)).
Proof.
  revert l. induction results as [|c0 results IH]; cbn; intros l.
  - intros [= <-]. split; intros ? [].
  - destruct (accuracy c0) as [a|] eqn:Ea; [|discriminate].
    destruct (evaluate results) as [l'|]; [|discriminate].
    intros [= <-]. destruct (IH l' eq_refl) as [IH1 IH2]. split.
    + intros d [<- | Hd].
      * exists c0. cbn. auto.
      * destruct (IH1 d Hd) as [c [Hc H]]. exists c. auto.
    + intros c [<- | Hc].
      * exists (trees c0, a). cbn. auto.
      * destruct (IH2 c Hc) as [d [Hd H]]. exists d. cbn. auto.
Qed.

Lemma evaluate_None (results : list Candidate) :
  evaluate results = None <-> exists c, In c results /\ accuracy c = None.
Proof.
  induction results as [|c0 results IH]; cbn.
  - split; [discriminate | intros [c [[] _]]].
  - destruct (accuracy c0) as [a|] eqn:Ea.
    + destruct (evaluate results) as [l'|].
      * split; [discriminate|].
        intros [c [[<- | Hc] Hn]]; [congruence|].
        assert (H : Some l' = None) by (apply (proj2 IH); now exists c).
        discriminate H.
      * split; [|reflexivity]. intros _.
        destruct (proj1 IH eq_refl) as [c [Hc Hn]]. exists c. auto.
    + split; [|reflexivity]. intros _. exists c0. auto.
Qed.

Lemma insert_descending_head (c : Z * Q) (sorted : list (Z * Q)) :
  (forall h t, sorted = h :: t -> forall d, In d t -> (snd d <= snd h)%Q) ->
  forall h t, insert_descending c sorted = h :: t ->
              forall d, In d t -> (snd d <= snd h)%Q.
Proof.
  intros Hs h t. destruct sorted as [|e rest]; cbn.
  - intros [= <- <-] d [].
  - destruct (Q_leb (snd e) (snd c)) eqn:E.
    + intros [= <- <-] d [<- | Hd].
      * now apply Q_leb_le.
      * apply Q_leb_le in E.
        apply Qle_trans with (snd e); [|exact E].
        now apply (Hs e rest eq_refl).
    + intros [= <- <-] d Hd. apply In_insert_descending in Hd.
      destruct Hd as [-> | Hd].
      * apply Qlt_le_weak, Q_ltb_lt. rewrite Q_ltb_antisym.
        now rewrite E.
      * now apply (Hs e rest eq_refl).
Qed.

Lemma sort_descending_head_greatest (l : list (Z * Q)) :
  forall h t, sort_descending l = h :: t ->
              forall d, In d t -> (snd d <= snd h)%Q.
Proof.
  induction l as [|c l IH]; cbn.
  - discriminate.
  - now apply insert_descending_head.
Qed.

Lemma bestNumberOfTrees_Some_inv (results : list Candidate) (n : Z) :
  bestNumberOfTrees results = Some n ->
  exists l h, evaluate results = Some l /\ In h l /\ fst h = n /\
              forall d, In d l -> (snd d <= snd h)%Q.
Proof.
  unfold bestNumberOfTrees.
  destruct (evaluate results) as [l|] eqn:El; [|discriminate].
  destruct (sort_descending l) as [|h t] eqn:Es; [discriminate|].
  intros [= <-]. exists l, h. split; [reflexivity|].
  split; [apply In_sort_descending; rewrite Es; now left|].
  split; [reflexivity|].
  intros d Hd. apply In_sort_descending in Hd. rewrite Es in Hd.
  destruct Hd as [<- | Hd]; [apply Qle_refl|].
  now apply (sort_descending_head_greatest l h t Es).
Qed.

(** The selected tree count belongs to a candidate of the list whose
    accuracy no other candidate exceeds. *)
Theorem selection_is_a_maximum (results : list Candidate) (n : Z) :
  bestNumberOfTrees results = Some n ->
  exists c a, In c results /\ trees c = n /\ accuracy c = Some a /\
              forall d, In d results ->
                        exists x, accuracy d = Some x /\ (x <= a)%Q.
Proof.
  unfold bestNumberOfTrees.
  destruct (evaluate results) as [l|] eqn:El; [|discriminate].
  destruct (sort_descending l) as [|h t] eqn:Es; [discriminate|].
  intros [= <-]. destruct (evaluate_In results l El) as [H1 H2].
  assert (Hh : In h l).
  { apply In_sort_descending. rewrite Es. now left. }
  destruct (H1 h Hh) as [c [Hc [Ht Ha]]].
  exists c, (snd h). repeat split; trivial.
  intros d Hd. destruct (H2 d Hd) as [d' [Hd' [_ Hacc]]].
  exists (snd d'). split; [exact Hacc|].
  apply In_sort_descending in Hd'. rewrite Es in Hd'.
  destruct Hd' as [<- | Hd']; [apply Qle_refl|].
  now apply (sort_descending_head_greatest l h t Es).
Qed.

Lemma selection_is_a_maximum_witness :
  exists c a, In c Scenario.tied_candidates /\ trees c = 100 /\
              accuracy c = Some a /\
              forall d, In d Scenario.tied_candidates ->
                        exists x, accuracy d = Some x /\ (x <= a)%Q.
Proof.
  apply (selection_is_a_maximum Scenario.tied_candidates 100).
  reflexivity.
Defined.

(** The selection yields no tree count exactly when there is no candidate
    or the accuracy of some candidate cannot be evaluated. *)
Theorem selection_fails_iff (results : list Candidate) :
  bestNumberOfTrees results = None <->
  results = [] \/ exists c, In c results /\ accuracy c = None.
Proof.
  unfold bestNumberOfTrees. split.
  - destruct (evaluate results) as [l|] eqn:El.
    + destruct (sort_descending l) as [|h t] eqn:Es; [|discriminate].
      intros _. left.
      assert (Hl : l = []).
      { destruct l as [|d l]; [reflexivity|].
        assert (In d (sort_descending (d :: l))) as Hd
            by (apply In_sort_descending; now left).
        rewrite Es in Hd. destruct Hd. }
      subst l. destruct results as [|c results]; [reflexivity|].
      destruct (proj2 (evaluate_In _ _ El) c (or_introl eq_refl))
        as [d [[] _]].
    + intros _. right. now apply evaluate_None.
  - intros [-> | H]; [reflexivity|].
    apply evaluate_None in H. now rewrite H.
Qed.

End SelectionExtras.

(** ** The sweep and the selection together *)

Section SweepSelection.
Import Features Tuning.

Variable Classifier : Type.
Variable smileRandomForest_train :
  Z -> list Example -> list string -> option Classifier.
Variable classify_feature : Classifier -> Example -> Z.

Lemma In_results (trainingData testingData : list Example)
      (numTrees : list Z) (c : Candidate) :
  In c (results Classifier smileRandomForest_train classify_feature
                trainingData testingData numTrees) <->
  exists n, In n numTrees /\
            c = {| trees := n;
                   accuracy := scored Classifier smileRandomForest_train
                                      classify_feature
                                      trainingData testingData n |}.
Proof.
  unfold results. rewrite in_map_iff. split.
  - intros [n [<- Hn]]. exists n. split; [exact Hn|]. apply tune_scored.
  - intros [n [Hn ->]]. exists n. split; [apply tune_scored | exact Hn].
Qed.

Lemma scored_Some_trained (trainingData testingData : list Example)
      (n : Z) (a : Q) :
  scored Classifier smileRandomForest_train classify_feature
         trainingData testingData n = Some a ->
  exists c, smileRandomForest_train n trainingData allPredictors = Some c.
Proof.
  unfold scored.
  destruct (smileRandomForest_train n trainingData allPredictors) as [c|];
    [now exists c | discriminate].
Qed.

(** When the selection after a sweep yields a tree count, it is one of the
    swept values, training succeeded for every swept value, and no swept
    value scored higher. *)
Theorem swept_selection_among_inputs
        (trainingData testingData : list Example) (numTrees : list Z)
        (n : Z) :
  bestNumberOfTrees
    (results Classifier smileRandomForest_train classify_feature
             trainingData testingData numTrees) = Some n ->
  In n numTrees /\
  (forall m, In m numTrees ->
             exists c, smileRandomForest_train m trainingData allPredictors
                       = Some c) /\
  exists a, scored Classifier smileRandomForest_train classify_feature
                   trainingData testingData n = Some a /\
            forall m, In m numTrees ->
                      exists x, scored Classifier smileRandomForest_train
                                       classify_feature
                                       trainingData testingData m = Some x /\
                                (x <= a)%Q.
Proof.
  intros H. apply bestNumberOfTrees_Some_inv in H.
  destruct H as [l [h [El [Hh [Hn Hle]]]]].
  destruct (evaluate_In _ _ El) as [H1 H2].
  destruct (H1 h Hh) as [c [Hc [Ht Ha]]].
  assert (Hmax : forall d,
             In d (results Classifier smileRandomForest_train
                           classify_feature trainingData testingData
                           numTrees) ->
             exists x, accuracy d = Some x /\ (x <= snd h)%Q).
  { intros d Hd. destruct (H2 d Hd) as [d' [Hd' [_ Hacc]]].
    exists (snd d'). split; [exact Hacc | now apply Hle]. }
  rewrite Hn in Ht. set (a := snd h) in *. clearbody a.
  apply In_results in Hc. destruct Hc as [n' [Hn' ->]]. cbn in Ht, Ha.
  subst n'.
  assert (Hall : forall m, In m numTrees ->
            exists x, scored Classifier smileRandomForest_train
                             classify_feature trainingData testingData m
                      = Some x /\ (x <= a)%Q).
  { intros m Hm.
    apply (Hmax {| trees := m;
                   accuracy := scored Classifier smileRandomForest_train
                                      classify_feature
                                      trainingData testingData m |}).
    apply In_results. now exists m. }
  split; [exact Hn'|]. split.
  - intros m Hm. destruct (Hall m Hm) as [x [Hx _]].
    now apply scored_Some_trained in Hx.
  - now exists a.
Qed.

(** If the engine cannot train on an empty training set, the selection
    after a sweep over an empty training set yields no tree count. *)
Theorem empty_training_selects_nothing
        (testingData : list Example) (numTrees : list Z) :
  (forall n inputs, smileRandomForest_train n [] inputs = None) ->
  bestNumberOfTrees
    (results Classifier smileRandomForest_train classify_feature
             [] testingData numTrees) = None.
Proof.
  intros Hfail. unfold bestNumberOfTrees.
  destruct numTrees as [|n numTrees]; [reflexivity|].
  assert (He : evaluate
                 (results Classifier smileRandomForest_train classify_feature
                          [] testingData (n :: numTrees)) = None).
  { apply evaluate_None.
    exists {| trees := n;
              accuracy := scored Classifier smileRandomForest_train
                                 classify_feature [] testingData n |}.
    split.
    - apply In_results. exists n. split; [now left | reflexivity].
    - cbn. unfold scored. now rewrite Hfail. }
  now rewrite He.
Qed.

End SweepSelection.

Section SweepSelectionRuns.
Import Features Tuning Scenario.

Lemma swept_selection_among_inputs_witness :
  In 50 numTreesList.
Proof.
  apply (swept_selection_among_inputs Z first_class_train first_class_classify
           [forest_example; urban_example] [forest_example; urban_example]
           numTreesList 50).
  reflexivity.
Defined.

Lemma empty_training_selects_nothing_witness :
  bestNumberOfTrees
    (results Z first_class_train first_class_classify
             [] [forest_example] numTreesList) = None.
Proof.
  apply (empty_training_selects_nothing Z first_class_train
           first_class_classify [forest_example] numTreesList).
  reflexivity.
Defined.

End SweepSelectionRuns.

(** ** Sampling and the script as a whole *)

Section SamplingExtras.
Import Engine Labels Imagery Features Tuning Sampling.

Variable locate : ee_number * ee_number -> Loc.

Lemma pixel_values_names (image : Bands) (p : Loc)
      (vs : list (string * Q)) :
  pixel_values image p = Some vs -> map fst vs = map fst image.
Proof.
  revert vs. induction image as [|[n r] image IH]; cbn; intros vs.
  - now intros [= <-].
  - destruct (r p) as [v|]; [|discriminate].
    destruct (pixel_values image p) as [vs'|]; [|discriminate].
    intros [= <-]. cbn. f_equal. now apply IH.
Qed.

Lemma pixel_values_None (image : Bands) (p : Loc) :
  pixel_values image p = None <->
  exists n r, In (n, r) image /\ r p = None.
Proof.
  induction image as [|[n r] image IH]; cbn.
  - split; [discriminate | intros [n [r [[] _]]]].
  - destruct (r p) as [v|] eqn:E.
    + destruct (pixel_values image p) as [vs|].
      * split; [discriminate|].
        intros [n' [r' [[[= <- <-] | Hin] Hr]]]; [congruence|].
        assert (H : Some vs = None)
          by (apply (proj2 IH); now exists n', r').
        discriminate H.
      * split; [|reflexivity]. intros _.
        destruct (proj1 IH eq_refl) as [n' [r' [Hin Hr]]].
        exists n', r'. auto.
    + split; [|reflexivity]. intros _. exists n, r. auto.
Qed.

Lemma In_sampleRegions (image : Bands) (collection : list SplitPoint)
      (e : Example) :
  In e (sampleRegions locate image collection) <->
  exists sp, In sp collection /\ sample locate image sp = Some e.
Proof.
  unfold sampleRegions. rewrite in_flat_map. split.
  - intros [sp [Hsp He]]. exists sp. split; [exact Hsp|].
    destruct (sample locate image sp) as [e'|]; [|destruct He].
    destruct He as [-> | []]. reflexivity.
  - intros [sp [Hsp He]]. exists sp. split; [exact Hsp|].
    rewrite He. now left.
Qed.

Lemma predictorImage_names (catalogue : list Image) :
  map fst (predictorImage catalogue) = allPredictors.
Proof.
  unfold predictorImage, select_rename. rewrite map_map. reflexivity.
Qed.

(** A point gives no sample exactly when some band of the image is masked
    at its pixel; so sampling never yields more features than points. *)
Theorem sampleRegions_drops_masked_points
        (image : Bands) (collection : list SplitPoint) :
  (forall sp, sample locate image sp = None <->
              exists n r, In (n, r) image /\
                          r (locate (geometry (point sp))) = None) /\
  (List.length (sampleRegions locate image collection)
   <= List.length collection)%nat.
Proof.
  split.
  - intros sp. unfold sample. rewrite <- pixel_values_None.
    destruct (pixel_values image (locate (geometry (point sp))));
      cbn; split; congruence.
  - unfold sampleRegions.
    induction collection as [|sp collection IH]; cbn; [lia|].
    rewrite length_app.
    destruct (sample locate image sp); cbn; lia.
Qed.

(** Every training and every testing example carries the sixteen
    predictors, in the order of [allPredictors], and a class in 0 .. 7. *)
Theorem examples_well_formed (catalogue : list Image) (draw : nat -> Q)
        (table : list LabelRow) (e : Example) :
  In e (trainingData locate catalogue draw table) \/
  In e (testingData locate catalogue draw table) ->
  map fst (properties e) = allPredictors /\
  0 <= Tuning.target_class e <= 7.
Proof.
  assert (Hsample : forall sp,
             In (point sp) (finalPoints table) ->
             sample locate (predictorImage catalogue) sp = Some e ->
             map fst (properties e) = allPredictors /\
             0 <= Tuning.target_class e <= 7).
  { intros sp Hsp He. unfold sample in He.
    destruct (pixel_values (predictorImage catalogue)
                           (locate (geometry (point sp)))) as [vs|] eqn:E;
      [|discriminate].
    cbn in He. injection He as <-. cbn. split.
    - rewrite (pixel_values_names _ _ _ E). apply predictorImage_names.
    - now apply finalPoints_class_range in Hsp. }
  unfold trainingData, testingData, trainingSet, testingSet.
  intros [H | H]; apply In_sampleRegions in H;
    destruct H as [sp [Hsp He]]; apply filter_In in Hsp;
    destruct Hsp as [Hsp _]; apply In_randomColumn_from in Hsp;
    now apply (Hsample sp).
Qed.

Variable Classifier : Type.
Variable smileRandomForest_train :
  Z -> list Example -> list string -> option Classifier.
Variable classify_feature : Classifier -> Example -> Z.

(** When the script selects a tree count, it is one of 50, 100, 150, 200,
    250, 300, and the final classifier is the engine's classifier for that
    count on the training data, which the engine could train. *)
Theorem script_selects_configured_count
        (catalogue : list Image) (draw : nat -> Q) (table : list LabelRow)
        (n : Z) :
  script_bestNumberOfTrees locate Classifier smileRandomForest_train
                           classify_feature catalogue draw table = Some n ->
  In n [50; 100; 150; 200; 250; 300] /\
  exists c,
    finalClassifier locate Classifier smileRandomForest_train
                    classify_feature catalogue draw table = Some c /\
    smileRandomForest_train n (trainingData locate catalogue draw table)
                            allPredictors = Some c.
Proof.
  intros H. unfold finalClassifier. rewrite H.
  unfold script_bestNumberOfTrees, script_results in H.
  apply bestNumberOfTrees_Some_inv in H.
  destruct H as [l [h [El [Hh [Hn _]]]]].
  destruct (proj1 (evaluate_In _ _ El) h Hh) as [c [Hc [Ht Ha]]].
  apply In_results in Hc. destruct Hc as [n' [Hn' ->]]. cbn in Ht, Ha.
  rewrite <- Ht in Hn. subst n'.
  split; [exact Hn'|].
  apply scored_Some_trained in Ha. destruct Ha as [cl Hcl].
  exists cl. now rewrite Hcl.
Qed.

End SamplingExtras.

Section SamplingRuns.
Import Engine Labels Imagery Features Tuning Sampling Scenario Runs.

Lemma examples_well_formed_witness :
  exists e,
    In e (trainingData at_origin catalogue draw table) /\
    map fst (properties e) = allPredictors /\
    0 <= Tuning.target_class e <= 7.
Proof.
  assert (Hne : exists e, In e (trainingData at_origin catalogue draw table)).
  { vm_compute. eexists. left. reflexivity. }
  destruct Hne as [e He]. exists e. split; [exact He|].
  apply (examples_well_formed at_origin catalogue draw table e).
  now left.
Defined.

Lemma script_selects_configured_count_witness :
  In 50 [50; 100; 150; 200; 250; 300].
Proof.
  apply (script_selects_configured_count
           at_origin Z first_class_train first_class_classify
           catalogue draw table 50).
  vm_compute. reflexivity.
Defined.

End SamplingRuns.

(** ** The error matrix and the accuracy *)

Section AccuracyExtras.
Import Tuning Analysis.

Lemma sumZ_cons (x : Z) (l : list Z) : sumZ (x :: l) = x + sumZ l.
Proof. reflexivity. Qed.

Lemma sumZ_app (l1 l2 : list Z) : sumZ (l1 ++ l2) = sumZ l1 + sumZ l2.
Proof.
  induction l1 as [|x l1 IH]; [reflexivity|].
  rewrite <- app_comm_cons, !sumZ_cons, IH. lia.
Qed.

Lemma sumZ_map_add {A : Type} (f g : A -> Z) (l : list A) :
  sumZ (map (fun x => f x + g x) l) = sumZ (map f l) + sumZ (map g l).
Proof.
  induction l as [|x l IH]; [reflexivity|].
  cbn [map]. rewrite !sumZ_cons, IH. lia.
Qed.

Lemma sumZ_map_zero {A : Type} (l : list A) :
  sumZ (map (fun _ => 0) l) = 0.
Proof.
  induction l as [|x l IH]; [reflexivity|].
  cbn [map]. rewrite sumZ_cons, IH. reflexivity.
Qed.

(** Exactly one index below [n] equals a class in range. *)
Lemma sumZ_indicator (c : Z) (n : nat) :
  sumZ (map (fun j => if c =? Z.of_nat j then 1 else 0) (seq 0 n))
  = if (0 <=? c) && (c <? Z.of_nat n) then 1 else 0.
Proof.
  induction n as [|n IH].
  - cbn. destruct (0 <=? c) eqn:E0; cbn; [|reflexivity].
    destruct (Z.ltb_spec c 0); [|reflexivity].
    apply Z.leb_le in E0. lia.
  - rewrite seq_S, map_app, sumZ_app, IH. cbn [map Nat.add].
    rewrite sumZ_cons. change (sumZ []) with 0.
    destruct (Z.leb_spec 0 c), (Z.ltb_spec c (Z.of_nat n)),
      (Z.ltb_spec c (Z.of_nat (S n))), (Z.eqb_spec c (Z.of_nat n));
      cbn; lia.
Qed.

Lemma cell_cons (x : Example * Z) (l : list (Example * Z)) (i j : nat) :
  cell (x :: l) i j
  = (if (target_class (fst x) =? Z.of_nat i) && (snd x =? Z.of_nat j)
     then 1 else 0) + cell l i j.
Proof.
  unfold cell. cbn [filter].
  destruct ((target_class (fst x) =? Z.of_nat i) && (snd x =? Z.of_nat j));
    cbn [List.length]; lia.
Qed.

(** The cells of an [n] by [n] matrix add up to the number of features
    whose two classes are below [n]. *)
Lemma cells_total (n : nat) (l : list (Example * Z)) :
  (forall ep, In ep l ->
              0 <= target_class (fst ep) < Z.of_nat n /\
              0 <= snd ep < Z.of_nat n) ->
  sumZ (map (fun i => sumZ (map (fun j => cell l i j) (seq 0 n))) (seq 0 n))
  = Z.of_nat (List.length l).
Proof.
  induction l as [|x l IH]; intros Hr.
  - unfold cell. cbn [filter List.length Z.of_nat].
    rewrite (map_ext _ (fun _ => 0)); [apply sumZ_map_zero|].
    intros i. apply sumZ_map_zero.
  - rewrite (map_ext _ (fun i =>
               sumZ (map (fun j => if (target_class (fst x) =? Z.of_nat i)
                                      && (snd x =? Z.of_nat j)
                                   then 1 else 0) (seq 0 n))
               + sumZ (map (fun j => cell l i j) (seq 0 n)))).
    2:{ intros i. rewrite <- sumZ_map_add. f_equal. apply map_ext.
        intros j. apply cell_cons. }
    rewrite sumZ_map_add, IH by (intros ep H; apply Hr; now right).
    destruct (Hr x (or_introl eq_refl)) as [Ha Hb].
    rewrite (map_ext _ (fun i => if target_class (fst x) =? Z.of_nat i
                                 then 1 else 0)).
    2:{ intros i. destruct (target_class (fst x) =? Z.of_nat i); cbn [andb].
        - rewrite sumZ_indicator.
          destruct (Z.leb_spec 0 (snd x)), (Z.ltb_spec (snd x) (Z.of_nat n));
            cbn; lia.
        - apply sumZ_map_zero. }
    rewrite sumZ_indicator.
    destruct (Z.leb_spec 0 (target_class (fst x))),
      (Z.ltb_spec (target_class (fst x)) (Z.of_nat n));
      cbn [andb List.length]; lia.
Qed.

(** The diagonal adds up to the number of correctly classified features. *)
Lemma cells_diagonal (n : nat) (l : list (Example * Z)) :
  (forall ep, In ep l ->
              0 <= target_class (fst ep) < Z.of_nat n /\
              0 <= snd ep < Z.of_nat n) ->
  sumZ (map (fun i => cell l i i) (seq 0 n)) = Z.of_nat (correct l).
Proof.
  induction l as [|x l IH]; intros Hr.
  - unfold cell, correct. cbn [filter List.length Z.of_nat].
    apply sumZ_map_zero.
  - rewrite (map_ext _ (fun i =>
               (if (target_class (fst x) =? Z.of_nat i)
                   && (snd x =? Z.of_nat i) then 1 else 0)
               + cell l i i)) by (intros i; apply cell_cons).
    rewrite sumZ_map_add, IH by (intros ep H; apply Hr; now right).
    destruct (Hr x (or_introl eq_refl)) as [Ha Hb].
    unfold correct. cbn [filter].
    destruct (Z.eqb_spec (target_class (fst x)) (snd x)) as [E | E].
    + rewrite (map_ext _ (fun i => if snd x =? Z.of_nat i then 1 else 0)).
      2:{ intros i. rewrite E. now destruct (snd x =? Z.of_nat i). }
      rewrite sumZ_indicator.
      destruct (Z.leb_spec 0 (snd x)), (Z.ltb_spec (snd x) (Z.of_nat n));
        cbn [andb List.length]; lia.
    + rewrite (map_ext _ (fun _ => 0)).
      2:{ intros i.
          destruct (Z.eqb_spec (target_class (fst x)) (Z.of_nat i)),
            (Z.eqb_spec (snd x) (Z.of_nat i)); cbn; congruence. }
      rewrite sumZ_map_zero. lia.
Qed.

End AccuracyExtras.

Section AccuracyTheorem.
Import Tuning Analysis.

Lemma fold_max_bound (l : list (Example * Z)) :
  let M := fold_right (fun ep m => Z.max (Z.max (target_class (fst ep))
                                                (snd ep)) m) 0 l in
  0 <= M /\
  forall ep, In ep l -> target_class (fst ep) <= M /\ snd ep <= M.
Proof.
  induction l as [|x l [IH0 IH]]; cbn.
  - split; [lia | intros ep []].
  - split; [lia|]. intros ep [<- | H]; [lia|].
    destruct (IH ep H). lia.
Qed.

Lemma order_bound (l : list (Example * Z)) (ep : Example * Z) :
  In ep l ->
  target_class (fst ep) < Z.of_nat (order l) /\
  snd ep < Z.of_nat (order l).
Proof.
  intros H. destruct (fold_max_bound l) as [H0 Hm].
  destruct (Hm ep H) as [Ha Hb].
  unfold order. destruct l as [|x l]; [destruct H|].
  rewrite Nat2Z.inj_succ, Z2Nat.id by exact H0. lia.
Qed.

Lemma matrix_total_errorMatrix (l : list (Example * Z)) :
  matrix_total (errorMatrix l)
  = sumZ (map (fun i => sumZ (map (fun j => cell l i j)
                                  (seq 0 (order l))))
              (seq 0 (order l))).
Proof. unfold matrix_total, errorMatrix. now rewrite map_map. Qed.

Lemma matrix_trace_errorMatrix (l : list (Example * Z)) :
  matrix_trace (errorMatrix l)
  = sumZ (map (fun i => cell l i i) (seq 0 (order l))).
Proof.
  unfold matrix_trace, errorMatrix.
  rewrite length_map, length_seq. f_equal.
  apply map_ext_in. intros i Hi. apply in_seq in Hi.
  set (row := fun i0 => map (fun j => cell l i0 j) (seq 0 (order l))).
  rewrite (nth_indep _ [] (row O)) by (rewrite length_map, length_seq; lia).
  rewrite (map_nth row), seq_nth by lia. unfold row.
  rewrite (nth_indep _ 0 ((fun j => cell l (0 + i) j) O))
    by (rewrite length_map, length_seq; lia).
  rewrite (map_nth (fun j => cell l (0 + i) j)), seq_nth by lia.
  reflexivity.
Qed.

(** For a non-empty set of validation features whose actual and
    predicted classes are not negative, the accuracy of the error matrix
    is the share of features classified correctly, and lies between 0
    and 1. *)
Theorem accuracy_is_share_correct (validation : list (Example * Z)) :
  validation <> [] ->
  (forall ep, In ep validation ->
              0 <= target_class (fst ep) /\ 0 <= snd ep) ->
  matrix_accuracy (errorMatrix validation)
  = (inject_Z (Z.of_nat (correct validation))
     / inject_Z (Z.of_nat (List.length validation)))%Q /\
  (0 <= matrix_accuracy (errorMatrix validation) <= 1)%Q.
Proof.
  intros Hne Hpos.
  assert (Hr : forall ep, In ep validation ->
             0 <= target_class (fst ep) < Z.of_nat (order validation) /\
             0 <= snd ep < Z.of_nat (order validation)).
  { intros ep H. destruct (Hpos ep H). destruct (order_bound _ _ H). lia. }
  assert (Hacc : matrix_accuracy (errorMatrix validation)
                 = (inject_Z (Z.of_nat (correct validation))
                    / inject_Z (Z.of_nat (List.length validation)))%Q).
  { unfold matrix_accuracy.
    rewrite matrix_trace_errorMatrix, matrix_total_errorMatrix.
    now rewrite cells_diagonal, cells_total. }
  split; [exact Hacc|]. rewrite Hacc.
  assert (Hlen : (0 < List.length validation)%nat).
  { destruct validation; [congruence | cbn; lia]. }
  assert (Hc : (correct validation <= List.length validation)%nat).
  { unfold correct. apply filter_length_le. }
  assert (Hden : (0 < inject_Z (Z.of_nat (List.length validation)))%Q).
  { rewrite <- (Zlt_Qlt 0). lia. }
  split.
  - apply Qle_shift_div_l; [exact Hden|]. rewrite Qmult_0_l.
    rewrite <- (Zle_Qle 0). lia.
  - apply Qle_shift_div_r; [exact Hden|]. rewrite Qmult_1_l.
    rewrite <- Zle_Qle. lia.
Qed.

Lemma accuracy_is_share_correct_witness :
  (matrix_accuracy
     (errorMatrix
        (classify Z first_class_classify
                  [Scenario.forest_example; Scenario.urban_example;
                   Scenario.urban_example] 4%Z))
   == 2 # 3)%Q.
Proof.
  destruct (accuracy_is_share_correct
              (classify Z first_class_classify
                        [Scenario.forest_example; Scenario.urban_example;
                         Scenario.urban_example] 4%Z)) as [H _].
  - discriminate.
  - intros ep Hin. cbn in Hin.
    destruct Hin as [<- | [<- | [<- | []]]]; split; vm_compute;
      discriminate.
  - rewrite H. reflexivity.
Defined.

End AccuracyTheorem.

(** ** The cloud test on a quality value *)

Section CloudTest.
Import Imagery.

(** The constant of line 52 is 26, and a quality value passes the test of
    line 53 exactly when its bits 1, 3 and 4 are all clear; the other
    bits (fill, cirrus, snow, water, confidence levels) play no part. *)
Theorem cloud_test_reads_bits_1_3_4 (qa : Z) :
  cloudMask = 26 /\
  (Z.land qa cloudMask = 0 <->
   Z.testbit qa 1 = false /\ Z.testbit qa 3 = false /\
   Z.testbit qa 4 = false) /\
  (forall other, Z.testbit other 1 = Z.testbit qa 1 ->
                 Z.testbit other 3 = Z.testbit qa 3 ->
                 Z.testbit other 4 = Z.testbit qa 4 ->
                 (Z.land other cloudMask =? 0) = (Z.land qa cloudMask =? 0)).
Proof.
  split; [reflexivity|]. split.
  - rewrite <- Z.eqb_eq, land_cloudMask_spec. unfold spec_masked.
    rewrite negb_true_iff, !orb_false_iff. tauto.
  - intros other H1 H3 H4. rewrite !land_cloudMask_spec. unfold spec_masked.
    now rewrite H1, H3, H4.
Qed.

Lemma cloud_test_reads_bits_1_3_4_witness :
  (Z.land 21952 cloudMask =? 0) = (Z.land 21824 cloudMask =? 0).
Proof.
  apply (proj2 (proj2 (cloud_test_reads_bits_1_3_4 21824)) 21952);
    reflexivity.
Defined.

End CloudTest.

(** ** The composite takes nothing from a masked pixel *)

Section CompositeProperties.
Import Engine Imagery.

Local Open Scope string_scope.











End CompositeProperties.

Section CompositeClaim.
Import Engine Imagery.

Local Open Scope string_scope.



End CompositeClaim.

Section IndexCorrection.
Import Imagery Features.

Local Open Scope string_scope.


End IndexCorrection.
